(** * Stats factory / stats printer defaults: a shallow embedding

    This development embeds the default plugins of the stats pipeline,
    [lib/stats/DefaultStatsFactoryPlugin.js] (extraction of the report
    tree) and [lib/stats/DefaultStatsPrinterPlugin.js] (rendering of the
    report tree), and proves properties of their helper functions and
    registered handlers.

    Conventions.
    - JavaScript strings are [string]; [s.length] is [String.length s].
    - A JavaScript array is a [list]; an object used as a dictionary is a
      [gmap string _]; a [Set] of strings is a [gset string].
    - A call that can raise is given a [Completion] result.
    - Mutation of a local array or string is written as explicit state
      passing through the loop that performs it. *)

From Stdlib Require Import String Ascii List Bool Arith ZArith Lia.
From stdpp Require Import base option list gmap sets strings.

Set Warnings "-register-all,-clear-no-such-hyp".

(** ** JavaScript preliminaries *)

(** The result of evaluating a call: a returned value or a thrown
    [TypeError] (the only exception the embedded code can raise itself). *)
Inductive Completion (A : Type) : Type :=
| Return (a : A)
| ThrowTypeError.
Arguments Return {A} a.
Arguments ThrowTypeError {A}.

(** The line feed used by [lines.join("\n")]. *)
Definition LF : string := String "010"%char EmptyString.

(** [Array.prototype.join] on an array of strings. *)
Definition join (sep : string) (items : list string) : string :=
  String.concat sep items.

(** [n] spaces, the text appended by [n] rounds of [str += " "]. *)
Fixpoint spaces (n : nat) : string :=
  match n with
  | O => ""
  | S k => " " +:+ spaces k
  end.

(** [s.endsWith(suffix)]. *)
Definition endsWith (s suffix : string) : bool :=
  (String.length suffix <=? String.length s) &&
  String.eqb
    (substring (String.length s - String.length suffix)
               (String.length suffix) s)
    suffix.

(** Truthiness of a string-or-undefined value ([undefined] is [None]):
    only a non-empty string is truthy. *)
Definition truthyStr (c : option string) : bool :=
  match c with
  | Some s => negb (String.eqb s "")
  | None => false
  end.

(** Primitive values. Numbers are the integers; [PNaN] is the result of
    arithmetic on [undefined]. *)
Inductive prim : Type :=
| PUndefined
| PNull
| PBool (b : bool)
| PNum (n : Z)
| PNaN
| PStr (s : string).

(** Values: primitives, arrays, plain objects, and host objects (functions
    and class instances, known by identity only). *)
Inductive val : Type :=
| VPrim (p : prim)
| VArr (items : list val)
| VObj (fields : gmap string val)
| VHost (id : positive).
Coercion VPrim : prim >-> val.

Global Instance prim_eq_dec : EqDecision prim.
Proof. solve_decision. Defined.

(** [ToBoolean]. *)
Definition truthyPrim (p : prim) : bool :=
  match p with
  | PUndefined | PNull | PNaN => false
  | PBool b => b
  | PNum n => negb (n =? 0)%Z
  | PStr s => negb (String.eqb s "")
  end.

Definition truthy (v : val) : bool :=
  match v with
  | VPrim p => truthyPrim p
  | VArr _ | VObj _ | VHost _ => true
  end.

(** [a === b] on primitives: same type and same value, [NaN] unequal to
    itself. *)
Definition strictEq (a b : prim) : bool :=
  match a, b with
  | PNaN, _ | _, PNaN => false
  | _, _ => bool_decide (a = b)
  end.

(** [Array.isArray(v)]. *)
Definition isArray (v : val) : bool :=
  match v with
  | VArr _ => true
  | _ => false
  end.

(** ** [DefaultStatsPrinterPlugin.js]: [createOrder] *)

Module Order.

(** One round of the first loop: [array.push(element);
    usedSet.add(element)] when the element is reserved or present. *)
Definition preferStep (set : gset string)
    (st : list string * gset string) (element : string)
  : list string * gset string :=
  if endsWith element "!" || bool_decide (element ∈ set)
  then (st.1 ++ [element], {[element]} ∪ st.2)
  else st.

(** One round of the second loop: push what has not been used. *)
Definition restStep (usedSet : gset string)
    (array : list string) (element : string) : list string :=
  if bool_decide (element ∉ usedSet) then array ++ [element] else array.

(** [createOrder(array, preferedOrder)]; the array is emptied
    ([array.length = 0]), refilled and returned. *)
Definition createOrder (array preferedOrder : list string) : list string :=
  let originalArray := array in
  let set : gset string := list_to_set array in
  let st := foldl (preferStep set) ([], ∅) preferedOrder in
  foldl (restStep st.2) st.1 originalArray.

(** The two selections the ordering is made of, written as filters. *)
Definition keptPreferred (present preferred : list string) : list string :=
  filter (λ e, endsWith e "!" = true ∨ e ∈ present) preferred.

Definition remaining (present used : list string) : list string :=
  filter (λ e, e ∉ used) present.

End Order.

(** ** [DefaultStatsPrinterPlugin.js]: [table] *)

Module Table.

(** [`${array[row][col]}`]: a missing cell reads as [undefined] and is
    printed by the template as the text "undefined". *)
Definition cellText (row : list string) (col : nat) : string :=
  default "undefined" (row !! col).

(** [colSizes[col]] for an index inside the array. *)
Definition sizeAt (colSizes : list nat) (col : nat) : nat :=
  default 0 (colSizes !! col).

(** Body of the inner measuring loop. *)
Definition sizeStep (row : list string) (colSizes : list nat) (col : nat)
  : list nat :=
  let value := cellText row col in
  if sizeAt colSizes col <? String.length value
  then <[col := String.length value]> colSizes
  else colSizes.

(** The two measuring loops, over rows then columns. *)
Definition measure (array : list (list string)) (cols : nat) : list nat :=
  foldl (λ colSizes row, foldl (sizeStep row) colSizes (seq 0 cols))
        (replicate cols 0) array.

(** [for (; l < colSizes[col] && col !== cols - 1; l++) str += " "];
    the loop runs at most [fuel] rounds. *)
Fixpoint padLoop (fuel l size : nat) (notLast : bool) (str : string)
  : string :=
  match fuel with
  | O => str
  | S fuel' =>
      if (l <? size) && notLast
      then padLoop fuel' (S l) size notLast (str +:+ " ")
      else str
  end.

(** [align[col] === a]. *)
Definition alignIs (align : list string) (col : nat) (a : string) : bool :=
  bool_decide (align !! col = Some a).

(** [splitter || "  "]. *)
Definition splitterOr (splitter : option string) : string :=
  if truthyStr splitter then default "" splitter else "  ".

(** Body of the inner rendering loop: one cell appended to [str]. *)
Definition lineStep (row : list string) (align : list string)
    (splitter : option string) (colSizes : list nat) (cols : nat)
    (str : string) (col : nat) : string :=
  let value := cellText row col in
  let l := String.length value in
  let str := if alignIs align col "l" then str +:+ value else str in
  let str :=
    padLoop (sizeAt colSizes col) l (sizeAt colSizes col)
            (negb (col =? cols - 1)) str in
  let str := if alignIs align col "r" then str +:+ value else str in
  if (col + 1 <? cols) && negb (sizeAt colSizes col =? 0)
  then str +:+ splitterOr splitter
  else str.

(** [table(array, align, splitter)]. Reading [array[0].length] on an
    empty array dereferences [undefined] and throws. *)
Definition table (array : list (list string)) (align : list string)
    (splitter : option string) : Completion string :=
  match array with
  | [] => ThrowTypeError
  | first :: _ =>
      let cols := List.length first in
      let colSizes := measure array cols in
      let lines :=
        map (λ row,
               foldl (lineStep row align splitter colSizes cols) ""
                     (seq 0 cols))
            array in
      Return (join LF lines)
  end.

(** [align] given as a JavaScript string: indexing yields one-character
    strings. *)
Fixpoint chars (s : string) : list string :=
  match s with
  | EmptyString => []
  | String c rest => String c EmptyString :: chars rest
  end.

(** The [printItems] handler registered for ["compilation.assets"];
    [None] is [undefined]. *)
Definition printItems_assets (bold : string → string)
    (items : list (list string)) : Completion (option string) :=
  if List.length items =? 0 then Return None
  else
    let header := ["Asset"; "Size"; "Chunks"; ""; ""; "Chunk Names"] in
    let header :=
      map (λ h, if truthyStr (Some h) then bold h else h) header in
    match table ([header] ++ items) (chars "rrrlll") None with
    | Return s => Return (Some s)
    | ThrowTypeError => ThrowTypeError
    end.

(** *** The layout in the words of the specification *)

(** Maximum width of a column over all rows. *)
Definition colWidth (array : list (list string)) (col : nat) : nat :=
  foldr Nat.max 0 (map (λ row, String.length (cellText row col)) array).

(** A cell padded to [width]: a right-aligned cell is padded on the left,
    a left-aligned cell on the right. *)
Definition paddedCell (align : list string) (col width : nat)
    (value : string) : string :=
  (if alignIs align col "l" then value else "") +:+
  spaces (width - String.length value) +:+
  (if alignIs align col "r" then value else "").

(** A cell of the last column: the text alone. *)
Definition bareCell (align : list string) (col : nat) (value : string)
  : string :=
  (if alignIs align col "l" then value else "") +:+
  (if alignIs align col "r" then value else "").

(** The gap after a column: none after the last column or after a column
    of width zero. *)
Definition gapAfter (sep : string) (cols col width : nat) : string :=
  if (col + 1 <? cols) && negb (width =? 0) then sep else "".

(** A line in which every column but the last is padded. *)
Definition lineOf (array : list (list string)) (align : list string)
    (sep : string) (cols : nat) (row : list string) : string :=
  join ""
    (map (λ col,
            (if col =? cols - 1
             then bareCell align col (cellText row col)
             else paddedCell align col (colWidth array col)
                             (cellText row col)) +:+
            gapAfter sep cols col (colWidth array col))
         (seq 0 cols)).

(** A line in which every column, the last included, is padded. *)
Definition lineAllPadded (array : list (list string)) (align : list string)
    (sep : string) (cols : nat) (row : list string) : string :=
  join ""
    (map (λ col,
            paddedCell align col (colWidth array col) (cellText row col) +:+
            gapAfter sep cols col (colWidth array col))
         (seq 0 cols)).

End Table.


(** ** Where the columns of a table start *)

Module TableLayout.
Import Table.

(** The text one cell contributes to its line: the cell, padded unless
    it is in the last column, and the gap after it. *)
Definition cellPiece (array : list (list string)) (align : list string)
    (sep : string) (cols : nat) (row : list string) (col : nat) : string :=
  (if col =? cols - 1
   then bareCell align col (cellText row col)
   else paddedCell align col (colWidth array col) (cellText row col)) +:+
  gapAfter sep cols col (colWidth array col).

(** The offset at which column [c] starts in a line whose earlier columns
    are all padded. *)
Definition columnStart (array : list (list string)) (sep : string)
    (cols c : nat) : nat :=
  sum_list
    (map (λ col, colWidth array col +
                 String.length (gapAfter sep cols col (colWidth array col)))
         (seq 0 c)).

End TableLayout.

(** ** [DefaultStatsPrinterPlugin.js]: element joiners *)

Module Joiner.

(** A printed element, [{ element, content }]; the content is a string or
    [undefined]. *)
Record Printed : Type := { element : string; content : option string }.

Global Instance Printed_eq_dec : EqDecision Printed.
Proof. solve_decision. Defined.

(** The part of the print context the module joiner reads:
    [module.id] and [module.name]. *)
Record ModuleNode : Type := { id : prim; name : prim }.

(** [PREFERED_ORDERS.module]. *)
Definition PREFERED_ORDERS_module : list string :=
  [ "id"; "name"; "identifier"; "sizes"; "chunks"; "depth"; "cacheable";
    "orphan"; "runtime"; "optional"; "built"; "assets"; "failed";
    "warnings"; "errors"; "providedExports"; "usedExports";
    "optimizationBailout"; "reasons"; "profile"; "modules" ].

(** The local variables the filter callback closes over. *)
Record Locals : Type := { l_id : option string; l_hasName : bool }.

(** The callback of [items.filter(...)]: the new locals and whether the
    item is kept. *)
Definition keep (module : ModuleNode) (st : Locals) (item : Printed)
  : Locals * bool :=
  if String.eqb (element item) "id" then
    let st := {| l_id := content item; l_hasName := l_hasName st |} in
    let st :=
      if strictEq (id module) (name module)
      then {| l_id := l_id st; l_hasName := true |} else st in
    (st, true)
  else if String.eqb (element item) "name" then
    if l_hasName st then (st, false)
    else if truthyStr (content item)
         then ({| l_id := l_id st; l_hasName := true |}, true)
         else (st, true)
  else if String.eqb (element item) "identifier" then
    if l_hasName st then (st, false)
    else if truthyStr (content item)
         then ({| l_id := l_id st; l_hasName := true |}, true)
         else (st, true)
  else (st, true).

(** [items.filter(callback)], the callback called on the items in order. *)
Fixpoint filterItems (module : ModuleNode) (st : Locals)
    (items : list Printed) : list Printed :=
  match items with
  | [] => []
  | item :: rest =>
      let '(st', kept) := keep module st item in
      if kept then item :: filterItems module st' rest
      else filterItems module st' rest
  end.

(** [.map(item => item.content).filter(Boolean).join(" ")]. *)
Definition joinContents (items : list Printed) : string :=
  join " "
    (omap (λ item, if truthyStr (content item) then content item else None)
          items).

(** [SIMPLE_ELEMENT_JOINERS.module]. *)
Definition joinModule (items : list Printed) (module : ModuleNode) : string :=
  joinContents
    (filterItems module {| l_id := None; l_hasName := false |} items).

(** [joinOneLine], also [SIMPLE_ELEMENT_JOINERS.chunkGroup]. *)
Definition joinOneLine (items : list Printed) : string :=
  joinContents items.

(** Modelled from the spec: the step of the printing pipeline that is not
    in this file. For an object node the printer enumerates the present
    fields, lets the [sortElements] hook reorder them (for a module that is
    [createOrder] with [PREFERED_ORDERS.module]), and runs the print
    handler of each field, collecting [{field, content}] pairs. *)
Definition printedElements (keys : list string)
    (print : string → option string) : list Printed :=
  map (λ e, {| element := e; content := print e |})
      (Order.createOrder keys PREFERED_ORDERS_module).

End Joiner.


(** ** The rows of the assets table *)

Module AssetRow.
Import Joiner.

(** [value || ""]. *)
Definition orEmpty (value : option string) : string :=
  if truthyStr value then default "" value else "".

(** The [printElements] handler tapped for ["compilation.assets[].asset"]:
    the contents are collected by element name
    ([obj[e.element] = e.content], starting from an object without
    prototype) and laid out as the six cells of a table row. *)
Definition printElements_asset (elements : list Printed) : list string :=
  let elementsMap : gmap string (option string) :=
    foldl (λ obj e, <[element e := content e]> obj) ∅ elements in
  let cell key := orEmpty (default None (elementsMap !! key)) in
  [ cell "name"; cell "size"; cell "chunks"; cell "emitted";
    cell "isOverSizeLimit"; cell "chunkNames" ].

(** The header of the assets table, as [printItems] builds it. *)
Definition assetsHeader (bold : string → string) : list string :=
  map (λ h, if truthyStr (Some h) then bold h else h)
      ["Asset"; "Size"; "Chunks"; ""; ""; "Chunk Names"].

End AssetRow.

(** ** [DefaultStatsFactoryPlugin.js]: [mergeToObject] *)

Module Merge.

Section MergeToObject.
(** The items are objects with a [name] property holding a string. *)
Context {Item : Type} (name : Item → string).

(** [mergeToObject(items)]: the object starts empty, without prototype,
    and [obj[item.name] = item] is executed for the items in order. *)
Definition mergeToObject (items : list Item) : gmap string Item :=
  foldl (λ obj item, <[name item := item]> obj) ∅ items.

End MergeToObject.

(** The items of the specification's example, [{name, v}]. *)
Record NameV : Type := { nv_name : string; v : Z }.

End Merge.

(** ** [DefaultStatsFactoryPlugin.js]: [iterateConfig] *)

Abbreviation Options := (gmap string val).
Abbreviation Obj := (gmap string val).

Definition undefined : val := VPrim PUndefined.

(** [options[option]]: an absent property reads as [undefined]. *)
Definition optionValue (options : Options) (option : string) : val :=
  default undefined (options !! option).

Module Config.

Section IterateConfig.
(** [H] is the type of the handlers stored in the configuration, [S] the
    state the callback [fn] acts on. A configuration is listed in the order
    of [Object.keys]. *)
Context {H S : Type}.

Definition iterateConfig (config : list (string * list (string * H)))
    (options : Options) (fn : string → H → S → S) (s : S) : S :=
  foldl (λ s '(hookFor, subConfig),
           foldl (λ s '(option, handler),
                    if String.eqb option "_" ||
                       truthy (optionValue options option)
                    then fn hookFor handler s
                    else s)
                 s subConfig)
        s config.

End IterateConfig.

(** The registrations that are enabled by the options, with the key they
    were registered under: [(hookFor, option, handler)]. *)
Definition enabled {H : Type} (config : list (string * list (string * H)))
    (options : Options) : list (string * string * H) :=
  '(hookFor, subConfig) ← config;
  '(option, handler) ← subConfig;
  if decide (option = "_" ∨ truthy (optionValue options option) = true)
  then [(hookFor, option, handler)]
  else [].

End Config.

(** ** [DefaultStatsFactoryPlugin.js]: the extractors *)

Module Factory.

(** *** The build result and the stats factory, as the plugin sees them *)

(** The kinds of object the plugin receives from its collaborators. *)
Class Carriers : Type := {
  (** a compilation (build session) *)
  Compilation : Type;
  (** a module of the build *)
  BuildModule : Type;
  Chunk : Type;
  ChunkGroup : Type;
  (** a [Source] from webpack-sources *)
  Source : Type;
  (** data handed through to the factory without being inspected:
      a module profile, the incoming connections of a module *)
  Foreign : Type;
  (** the mutable state of a stats factory *)
  FactoryState : Type;
  (** a stats factory, as returned by [compilation.createStatsFactory] *)
  StatsFactory : Type;
  (** normalized options, as returned by [compilation.createStatsOptions] *)
  StatsOptions : Type;
  (** the context argument of the [statsFactory] hook *)
  HookContext : Type;
}.

(** [null] or [undefined], the value of an absent reference. *)
Inductive Nullish : Type := JsNull | JsUndefined.

Definition nullishVal (n : Nullish) : val :=
  match n with
  | JsNull => VPrim PNull
  | JsUndefined => VPrim PUndefined
  end.

(** The result of [moduleGraph.getUsedExports(module)]. *)
Inductive UsedExports : Type :=
| UsedNull
| UsedBoolean (b : bool)
| UsedNames (names : list val).

Section Data.
Context `{carriers : Carriers}.

(** The data an extractor is called with, by the type documented for its
    group in [SimpleExtractors]. *)
Inductive Item : Type :=
| ICompilation (compilation : Compilation)
| IAsset (name : string) (source : Source)
| INamedGroup (name : string) (chunkGroup : ChunkGroup)
| IModule (module : BuildModule)
| IChunk (chunk : Chunk).

(** The second argument of [factory.create]. *)
Inductive Data : Type :=
| DArray (items : list Item)
| DForeign (x : Foreign)
| DUndefined.

(** The context of an extractor:
    [{ type, compilation, startTime, endTime }]. *)
Record Ctx : Type := {
  type : string;
  compilation : Compilation;
  startTime : Z;
  endTime : Z;
}.

End Data.

(** The read-only interface to the build result, and the functions of
    other files the extractors call. *)
Class DataAccess `{carriers : Carriers} : Type := {
  (** [require("../../package.json").version] *)
  packageVersion : val;
  (** [array.sort(compareIds)] *)
  sortIds : list prim → list prim;
  (** [SizeLimitsPlugin.isOverSizeLimit(source)] *)
  isOverSizeLimit : Source → val;
  (** [ToNumber] of a value that is not a number, [undefined], [null] or a
      boolean (string parsing, conversion of objects) *)
  toNumberOther : val → prim;
  (** a property of a host object *)
  hostProperty : positive → string → val;
  (* compilation *)
  needAdditionalPass : Compilation → val;
  hash : Compilation → val;
  (** [compilation.mainTemplate.getPublicPath(arg)] *)
  getPublicPath : Compilation → val → val;
  (** [compilation.mainTemplate.outputOptions.path] *)
  outputPath : Compilation → val;
  (** the own keys of [compilation.assets] with their values, in the order
      of [Object.keys] *)
  assets : Compilation → list (string * Source);
  chunks : Compilation → list Chunk;
  modules : Compilation → list BuildModule;
  (** the entries of the map [compilation.entrypoints], in order *)
  entrypoints : Compilation → list (string * ChunkGroup);
  namedChunkGroups : Compilation → list (string * ChunkGroup);
  children : Compilation → list Compilation;
  (** [compilation.emittedAssets.has(source)] *)
  emittedAssetsHas : Compilation → Source → bool;
  (** [compilation.builtModules.has(module)] *)
  builtModulesHas : Compilation → BuildModule → bool;
  (* source *)
  sourceSize : Source → val;
  sourceText : Source → val;
  (* chunk *)
  chunkId : Chunk → prim;
  chunkIds : Chunk → list prim;
  chunkName : Chunk → prim;
  chunkFiles : Chunk → list string;
  (* chunk group *)
  groupName : ChunkGroup → val;
  groupChunks : ChunkGroup → list Chunk;
  (** [chunkGroup.getChildrenByOrders(moduleGraph, chunkGraph)]: the keys
      of the result with their groups, in the order of [Object.keys] *)
  getChildrenByOrders :
    ChunkGroup → Compilation → list (string * list ChunkGroup);
  (* chunk graph *)
  getModuleId : Compilation → BuildModule → val;
  (** [chunkGraph.getOrderedModuleChunksIterable(module, compareChunksById)] *)
  getOrderedModuleChunks : Compilation → BuildModule → list Chunk;
  getNumberOfModuleChunks : Compilation → BuildModule → Z;
  getChunkModules : Compilation → Chunk → list BuildModule;
  getChunkRootModules : Compilation → Chunk → list BuildModule;
  getNumberOfChunkModules : Compilation → Chunk → Z;
  (* module graph *)
  getIssuer : Compilation → BuildModule → BuildModule + Nullish;
  getProfile : Compilation → BuildModule → Data;
  getIncomingConnections : Compilation → BuildModule → Data;
  getPreOrderIndex : Compilation → BuildModule → val;
  getPostOrderIndex : Compilation → BuildModule → val;
  getUsedExports : Compilation → BuildModule → UsedExports;
  (** the items are strings or functions of the request shortener *)
  getOptimizationBailout :
    Compilation → BuildModule → list (val + (val → val));
  getDepth : Compilation → BuildModule → val;
  (* module *)
  identifier : BuildModule → val;
  (** [module.readableIdentifier(requestShortener)] *)
  readableIdentifier : BuildModule → val → val;
  (** [module.size()] and [module.size(type)] *)
  moduleSize : BuildModule → val;
  moduleSizeOf : BuildModule → string → val;
  getSourceTypes : BuildModule → list string;
  (** [module.buildInfo.cacheable] *)
  cacheable : BuildModule → val;
  isOptional : BuildModule → Compilation → val;
  (** [module.type] *)
  moduleType : BuildModule → prim;
  (** [module.error] *)
  moduleError : BuildModule → val;
  (** [module.errors], [module.warnings]: an array, or absent *)
  moduleErrors : BuildModule → option (list Foreign);
  moduleWarnings : BuildModule → option (list Foreign);
  (** the keys of [module.buildInfo.assets], or absent *)
  buildInfoAssets : BuildModule → option (list string);
  (** [module.buildMeta.providedExports] *)
  providedExports : BuildModule → val;
  (** [module.modules]: the modules of a concatenation, or absent *)
  nestedModules : BuildModule → option (list BuildModule);
  (** [module.originalSource()]: a source, or absent *)
  originalSource : BuildModule → option Source;
  (** a bound on the rounds of the issuer loop of [module._], which has
      none of its own: the builds modelled are those whose chain of
      issuers is finite, where the loop ends *)
  issuerDepth : Compilation → BuildModule → nat;
  issuerDepth_issuer : ∀ c m i,
    getIssuer c m = inl i → issuerDepth c i < issuerDepth c m;
  (** [factory.create(type, data, context)], acting on the factory *)
  create :
    string → Data → Ctx → FactoryState → Completion (val * FactoryState);
  (** [compilation.createStatsOptions(options, context)] and
      [compilation.createStatsFactory(options)], of the compilation the
      plugin was applied to *)
  createStatsOptions : val → HookContext → StatsOptions;
  createStatsFactory : StatsOptions → StatsFactory;
  (** the property key of [item.name] of a report node *)
  nodeName : val → string;
}.

Section Extractors.
Context `{access : DataAccess}.

(** *** Extractors as computations on the output object

    An extractor mutates the output object it is given and may call
    [factory.create], which acts on the state of the factory and may
    throw. *)
Definition M (A : Type) : Type :=
  Obj → FactoryState → Completion (A * Obj * FactoryState).

Global Instance M_ret : MRet M := λ A a object w, Return (a, object, w).

Global Instance M_bind : MBind M := λ A B k m object w,
  match m object w with
  | Return (a, object', w') => k a object' w'
  | ThrowTypeError => ThrowTypeError
  end.

(** [object[key] = value]. *)
Definition assign (key : string) (value : val) : M unit :=
  λ object w, Return (tt, <[key := value]> object, w).

(** [object[key]]. *)
Definition field (key : string) : M val :=
  λ object w, Return (default undefined (object !! key), object, w).

(** [factory.create(type, data, context)]. *)
Definition factoryCreate (type : string) (data : Data) (context : Ctx)
  : M val :=
  λ object w,
    match create type data context w with
    | Return (value, w') => Return (value, object, w')
    | ThrowTypeError => ThrowTypeError
    end.

(** A pure step that may throw. *)
Definition liftC {A : Type} (c : Completion A) : M A :=
  λ object w,
    match c with
    | Return a => Return (a, object, w)
    | ThrowTypeError => ThrowTypeError
    end.

(** [value.length]. *)
Definition lengthOf (value : val) : Completion val :=
  match value with
  | VPrim PUndefined | VPrim PNull => ThrowTypeError
  | VPrim (PStr s) => Return (VPrim (PNum (Z.of_nat (String.length s))))
  | VPrim _ => Return undefined
  | VArr items => Return (VPrim (PNum (Z.of_nat (length items))))
  | VObj fields => Return (default undefined (fields !! "length"))
  | VHost id => Return (hostProperty id "length")
  end.

(** [ToNumber]. *)
Definition toNumber (value : val) : prim :=
  match value with
  | VPrim PUndefined => PNaN
  | VPrim PNull => PNum 0
  | VPrim (PBool b) => PNum (if b then 1 else 0)
  | VPrim (PNum n) => PNum n
  | VPrim PNaN => PNaN
  | _ => toNumberOther value
  end.

(** [a - b]. *)
Definition jsSub (a b : val) : val :=
  match toNumber a, toNumber b with
  | PNum x, PNum y => VPrim (PNum (x - y))
  | _, _ => VPrim PNaN
  end.

Definition num (n : nat) : val := VPrim (PNum (Z.of_nat n)).
Definition str (s : string) : val := VPrim (PStr s).
Definition bool (b : bool) : val := VPrim (PBool b).

(** [set.add(x)] on a [Set] kept in insertion order. *)
Definition setAdd {A : Type} `{EqDecision A} (set : list A) (x : A)
  : list A :=
  if bool_decide (x ∈ set) then set else set ++ [x].

(** An object literal. *)
Definition object (fields : list (string * val)) : val :=
  VObj (foldl (λ obj '(key, value), <[key := value]> obj) ∅ fields).

(** *** [SIMPLE_EXTRACTORS.compilation] *)

Definition compilation__ (compilation : Compilation) (context : Ctx)
    (options : Options) : M unit :=
  if truthy (needAdditionalPass compilation)
  then assign "needAdditionalPass" (bool true)
  else mret tt.

Definition compilation_hash (compilation : Compilation) (context : Ctx)
    (options : Options) : M unit :=
  assign "hash" (hash compilation).

Definition compilation_version (compilation : Compilation) (context : Ctx)
    (options : Options) : M unit :=
  assign "version" packageVersion.

Definition compilation_timings (compilation : Compilation) (context : Ctx)
    (options : Options) : M unit :=
  assign "time" (VPrim (PNum (endTime context - startTime context))).

Definition compilation_builtAt (compilation : Compilation) (context : Ctx)
    (options : Options) : M unit :=
  assign "builtAt" (VPrim (PNum (endTime context))).

Definition compilation_publicPath (compilation : Compilation)
    (context : Ctx) (options : Options) : M unit :=
  assign "publicPath"
    (getPublicPath compilation (object [("hash", hash compilation)])).

Definition compilation_outputPath (compilation : Compilation)
    (context : Ctx) (options : Options) : M unit :=
  assign "outputPath" (outputPath compilation).

Definition compilation_assets (compilation : Compilation) (context : Ctx)
    (options : Options) : M unit :=
  let array := map (λ '(name, source), IAsset name source)
                   (assets compilation) in
  created ← factoryCreate (type context +:+ ".assets") (DArray array)
                          context;
  assign "assets" created;;
  stored ← field "assets";
  len ← liftC (lengthOf stored);
  assign "filteredAssets" (jsSub (num (length array)) len).

Definition compilation_chunks (compilation : Compilation) (context : Ctx)
    (options : Options) : M unit :=
  created ← factoryCreate (type context +:+ ".chunks")
                          (DArray (map IChunk (chunks compilation)))
                          context;
  assign "chunks" created.

Definition compilation_modules (compilation : Compilation) (context : Ctx)
    (options : Options) : M unit :=
  let array := map IModule (modules compilation) in
  created ← factoryCreate (type context +:+ ".modules") (DArray array)
                          context;
  assign "modules" created;;
  stored ← field "modules";
  len ← liftC (lengthOf stored);
  assign "filteredModules" (jsSub (num (length array)) len).

Definition compilation_entrypoints (compilation : Compilation)
    (context : Ctx) (options : Options) : M unit :=
  let array := map (λ '(key, value), INamedGroup key value)
                   (entrypoints compilation) in
  created ← factoryCreate (type context +:+ ".entrypoints") (DArray array)
                          context;
  assign "entrypoints" created.

Definition compilation_chunkGroups (compilation : Compilation)
    (context : Ctx) (options : Options) : M unit :=
  let array := map (λ '(key, value), INamedGroup key value)
                   (namedChunkGroups compilation) in
  created ← factoryCreate (type context +:+ ".entrypoints") (DArray array)
                          context;
  assign "entrypoints" created.

(** *** [SIMPLE_EXTRACTORS.asset] *)

Definition asset__ (asset : string * Source) (context : Ctx)
    (options : Options) : M unit :=
  let compilation := compilation context in
  assign "name" (str asset.1);;
  assign "size" (sourceSize asset.2);;
  let chunks :=
    filter (λ chunk, asset.1 ∈ chunkFiles chunk) (chunks compilation) in
  assign "chunks"
    (VArr (VPrim <$>
           sortIds (foldl (λ ids chunk, foldl setAdd ids (chunkIds chunk))
                          [] chunks)));;
  assign "chunkNames"
    (VArr (VPrim <$>
           sortIds (foldl (λ names chunk,
                             if truthyPrim (chunkName chunk)
                             then setAdd names (chunkName chunk)
                             else names)
                          [] chunks)));;
  assign "emitted" (bool (emittedAssetsHas compilation asset.2)).

Definition asset_performance (asset : string * Source) (context : Ctx)
    (options : Options) : M unit :=
  assign "isOverSizeLimit" (isOverSizeLimit asset.2).

(** *** [SIMPLE_EXTRACTORS.chunkGroup] *)

(** [chunks.reduce((array, c) => array.concat(c.files || []), [])]. *)
Definition filesOf (chunks : list Chunk) : val :=
  VArr (str <$> foldl (λ array c, array ++ chunkFiles c) [] chunks).

Definition chunkGroup__ (data : string * ChunkGroup) (context : Ctx)
    (options : Options) : M unit :=
  let name := data.1 in
  let chunkGroup := data.2 in
  let children := getChildrenByOrders chunkGroup (compilation context) in
  let v_chunks := VArr ((λ c, VPrim (chunkId c)) <$> groupChunks chunkGroup) in
  let v_assets := filesOf (groupChunks chunkGroup) in
  let v_children :=
    VObj (foldl (λ obj '(key, groups),
                   <[key := VArr ((λ group,
                       object [("name", groupName group);
                               ("chunks",
                                VArr ((λ c, VPrim (chunkId c)) <$>
                                      groupChunks group));
                               ("assets", filesOf (groupChunks group))])
                     <$> groups)]> obj)
                ∅ children) in
  let v_childAssets :=
    VObj (foldl (λ obj '(key, groups),
                   <[key := VArr (str <$>
                       foldl (λ set group,
                                foldl (λ set chunk,
                                         foldl setAdd set (chunkFiles chunk))
                                      set (groupChunks group))
                             [] groups)]> obj)
                ∅ children) in
  assign "name" (str name);;
  assign "chunks" v_chunks;;
  assign "assets" v_assets;;
  assign "children" v_children;;
  assign "childAssets" v_childAssets.

(** *** [SIMPLE_EXTRACTORS.module] and [moduleIssuer] *)

(** [while (current) { path.push(current); current =
    moduleGraph.getIssuer(current); }], at most [fuel] rounds. *)
Fixpoint issuerLoop (fuel : nat) (compilation : Compilation)
    (current : BuildModule + Nullish) (path : list BuildModule)
  : list BuildModule :=
  match current with
  | inr _ => path
  | inl module =>
      match fuel with
      | O => path
      | S fuel' =>
          issuerLoop fuel' compilation (getIssuer compilation module)
                     (path ++ [module])
      end
  end.

(** [issuer && f(issuer)]. *)
Definition andIssuer (issuer : BuildModule + Nullish)
    (f : BuildModule → val) : val :=
  match issuer with
  | inl i => f i
  | inr n => nullishVal n
  end.

Definition module__ (module : BuildModule) (context : Ctx)
    (options : Options) : M unit :=
  let requestShortener := optionValue options "requestShortener" in
  let compilation := compilation context in
  let issuer := getIssuer compilation module in
  let path :=
    reverse (issuerLoop (issuerDepth compilation module) compilation
                        issuer []) in
  v_issuerPath ←
    match issuer with
    | inl _ => factoryCreate (type context +:+ ".issuerPath")
                             (DArray (IModule <$> path)) context
    | inr n => mret (nullishVal n)
    end;
  v_profile ← factoryCreate (type context +:+ ".profile")
                            (getProfile compilation module) context;
  assign "id" (getModuleId compilation module);;
  assign "identifier" (identifier module);;
  assign "name" (readableIdentifier module requestShortener);;
  assign "index" (getPreOrderIndex compilation module);;
  assign "preOrderIndex" (getPreOrderIndex compilation module);;
  assign "index2" (getPostOrderIndex compilation module);;
  assign "postOrderIndex" (getPostOrderIndex compilation module);;
  assign "size" (moduleSize module);;
  assign "sizes"
    (VObj (foldl (λ obj type, <[type := moduleSizeOf module type]> obj)
                 ∅ (getSourceTypes module)));;
  assign "cacheable" (cacheable module);;
  assign "built" (bool (builtModulesHas compilation module));;
  assign "optional" (isOptional module compilation);;
  assign "runtime" (bool (strictEq (moduleType module) (PStr "runtime")));;
  assign "chunks"
    (VArr ((λ chunk, VPrim (chunkId chunk)) <$>
           getOrderedModuleChunks compilation module));;
  assign "issuer" (andIssuer issuer identifier);;
  assign "issuerId" (andIssuer issuer (getModuleId compilation));;
  assign "issuerName"
    (andIssuer issuer (λ i, readableIdentifier i requestShortener));;
  assign "issuerPath" v_issuerPath;;
  assign "profile" v_profile;;
  assign "failed" (bool (truthy (moduleError module)));;
  assign "errors"
    (match moduleErrors module with
     | Some errors => num (length errors)
     | None => num 0
     end);;
  assign "warnings"
    (match moduleWarnings module with
     | Some warnings => num (length warnings)
     | None => num 0
     end).

Definition module_orphanModules (module : BuildModule) (context : Ctx)
    (options : Options) : M unit :=
  if negb (endsWith (type context) "module.modules[].module")
  then assign "orphan"
         (bool (getNumberOfModuleChunks (compilation context) module =? 0)%Z)
  else mret tt.

Definition module_moduleAssets (module : BuildModule) (context : Ctx)
    (options : Options) : M unit :=
  assign "assets"
    (match buildInfoAssets module with
     | Some keys => VArr (str <$> keys)
     | None => VArr []
     end).

Definition module_reasons (module : BuildModule) (context : Ctx)
    (options : Options) : M unit :=
  created ← factoryCreate (type context +:+ ".reasons")
                          (getIncomingConnections (compilation context)
                                                  module)
                          context;
  assign "reasons" created.

Definition module_usedExports (module : BuildModule) (context : Ctx)
    (options : Options) : M unit :=
  match getUsedExports (compilation context) module with
  | UsedNull => assign "usedExports" (VPrim PNull)
  | UsedBoolean b => assign "usedExports" (bool b)
  | UsedNames names => assign "usedExports" (VArr names)
  end.

Definition module_providedExports (module : BuildModule) (context : Ctx)
    (options : Options) : M unit :=
  assign "providedExports"
    (if isArray (providedExports module) then providedExports module
     else VPrim PNull).

Definition module_optimizationBailout (module : BuildModule)
    (context : Ctx) (options : Options) : M unit :=
  let requestShortener := optionValue options "requestShortener" in
  assign "optimizationBailout"
    (VArr ((λ item, match item with
                    | inr fn => fn requestShortener
                    | inl text => text
                    end) <$>
           getOptimizationBailout (compilation context) module)).

Definition module_depth (module : BuildModule) (context : Ctx)
    (options : Options) : M unit :=
  assign "depth" (getDepth (compilation context) module).

Definition module_nestedModules (module : BuildModule) (context : Ctx)
    (options : Options) : M unit :=
  match nestedModules module with
  | Some modules =>
      created ← factoryCreate (type context +:+ ".modules")
                              (DArray (IModule <$> modules)) context;
      assign "modules" created;;
      stored ← field "modules";
      len ← liftC (lengthOf stored);
      assign "filteredModules" (jsSub (num (length modules)) len)
  | None => mret tt
  end.

Definition module_source (module : BuildModule) (context : Ctx)
    (options : Options) : M unit :=
  match originalSource module with
  | Some source => assign "source" (sourceText source)
  | None => mret tt
  end.

Definition moduleIssuer__ (module : BuildModule) (context : Ctx)
    (options : Options) : M unit :=
  let requestShortener := optionValue options "requestShortener" in
  let compilation := compilation context in
  v_profile ← factoryCreate (type context +:+ ".profile")
                            (getProfile compilation module) context;
  assign "id" (getModuleId compilation module);;
  assign "identifier" (identifier module);;
  assign "name" (readableIdentifier module requestShortener);;
  assign "profile" v_profile.

(** *** [SIMPLE_EXTRACTORS.chunk] *)

Definition chunk_chunkModules (chunk : Chunk) (context : Ctx)
    (options : Options) : M unit :=
  let array := getChunkModules (compilation context) chunk in
  created ← factoryCreate (type context +:+ ".modules")
                          (DArray (IModule <$> array)) context;
  assign "modules" created;;
  stored ← field "modules";
  len ← liftC (lengthOf stored);
  assign "filteredModules" (jsSub (num (length array)) len).

Definition chunk_chunkRootModules (chunk : Chunk) (context : Ctx)
    (options : Options) : M unit :=
  let array := getChunkRootModules (compilation context) chunk in
  created ← factoryCreate (type context +:+ ".rootModules")
                          (DArray (IModule <$> array)) context;
  assign "rootModules" created;;
  stored ← field "rootModules";
  len ← liftC (lengthOf stored);
  assign "filteredRootModules" (jsSub (num (length array)) len);;
  assign "nonRootModules"
    (jsSub (VPrim (PNum (getNumberOfChunkModules (compilation context)
                                                 chunk)))
           (num (length array))).

(** *** The table [SIMPLE_EXTRACTORS] *)

(** An extractor, by the type of the data documented for its group. *)
Inductive Extractor : Type :=
| ForCompilation (fn : Compilation → Ctx → Options → M unit)
| ForAsset (fn : string * Source → Ctx → Options → M unit)
| ForChunkGroup (fn : string * ChunkGroup → Ctx → Options → M unit)
| ForModule (fn : BuildModule → Ctx → Options → M unit)
| ForChunk (fn : Chunk → Ctx → Options → M unit).

Definition SIMPLE_EXTRACTORS : list (string * list (string * Extractor)) :=
  [ ("compilation",
     [ ("_", ForCompilation compilation__);
       ("hash", ForCompilation compilation_hash);
       ("version", ForCompilation compilation_version);
       ("timings", ForCompilation compilation_timings);
       ("builtAt", ForCompilation compilation_builtAt);
       ("publicPath", ForCompilation compilation_publicPath);
       ("outputPath", ForCompilation compilation_outputPath);
       ("assets", ForCompilation compilation_assets);
       ("chunks", ForCompilation compilation_chunks);
       ("modules", ForCompilation compilation_modules);
       ("entrypoints", ForCompilation compilation_entrypoints);
       ("chunkGroups", ForCompilation compilation_chunkGroups) ]);
    ("asset",
     [ ("_", ForAsset asset__);
       ("performance", ForAsset asset_performance) ]);
    ("chunkGroup",
     [ ("_", ForChunkGroup chunkGroup__) ]);
    ("module",
     [ ("_", ForModule module__);
       ("orphanModules", ForModule module_orphanModules);
       ("moduleAssets", ForModule module_moduleAssets);
       ("reasons", ForModule module_reasons);
       ("usedExports", ForModule module_usedExports);
       ("providedExports", ForModule module_providedExports);
       ("optimizationBailout", ForModule module_optimizationBailout);
       ("depth", ForModule module_depth);
       ("nestedModules", ForModule module_nestedModules);
       ("source", ForModule module_source) ]);
    ("moduleIssuer",
     [ ("_", ForModule moduleIssuer__) ]);
    ("chunk",
     [ ("chunkModules", ForChunk chunk_chunkModules);
       ("chunkRootModules", ForChunk chunk_chunkRootModules) ]) ].

Definition ITEM_NAMES : list (string * string) :=
  [ ("compilation.children[]", "compilation");
    ("compilation.modules[]", "module");
    ("compilation.entrypoints[]", "chunkGroup");
    ("compilation.namedChunkGroups[]", "chunkGroup");
    ("chunk.modules[]", "module");
    ("chunk.rootModules[]", "module");
    ("compilation.chunks[]", "chunk");
    ("compilation.assets[]", "asset");
    ("module.issuerPath[]", "moduleIssuer") ].

(** [mergeToObject] on report nodes. *)
Definition mergeNodes (items : list val) : val :=
  VObj (Merge.mergeToObject nodeName items).

Definition MERGER : list (string * (list val → val)) :=
  [ ("compilation.entrypoints", mergeNodes);
    ("compilation.namedChunkGroups", mergeNodes) ].

(** *** The hooks of a stats factory and the [statsFactory] callback *)

(** A handler tapped on [stats.hooks.extract]:
    [(obj, data, ctx) => ...]. *)
Definition ExtractTap : Type := Item → Ctx → M unit.

(** A handler tapped on [stats.hooks.getItemFactory]:
    [(comp, { _index: idx }) => ...]; [None] is [undefined]. *)
Definition FactoryTap : Type := Item → nat → option StatsFactory.

(** The taps of a stats factory, per hook and in order of arrival, each
    with the key it was tapped for. *)
Record Hooks : Type := {
  extract : list (string * ExtractTap);
  getItemName : list (string * string);
  merge : list (string * (list val → val));
  getItemFactory : list (string * FactoryTap);
}.

Definition noHooks : Hooks :=
  {| extract := []; getItemName := []; merge := []; getItemFactory := [] |}.

Definition tapExtract (key : string) (fn : ExtractTap) (hooks : Hooks)
  : Hooks :=
  {| extract := extract hooks ++ [(key, fn)];
     getItemName := getItemName hooks;
     merge := merge hooks;
     getItemFactory := getItemFactory hooks |}.

Definition tapGetItemName (key itemName : string) (hooks : Hooks) : Hooks :=
  {| extract := extract hooks;
     getItemName := getItemName hooks ++ [(key, itemName)];
     merge := merge hooks;
     getItemFactory := getItemFactory hooks |}.

Definition tapMerge (key : string) (merger : list val → val)
    (hooks : Hooks) : Hooks :=
  {| extract := extract hooks;
     getItemName := getItemName hooks;
     merge := merge hooks ++ [(key, merger)];
     getItemFactory := getItemFactory hooks |}.

Definition tapGetItemFactory (key : string) (fn : FactoryTap)
    (hooks : Hooks) : Hooks :=
  {| extract := extract hooks;
     getItemName := getItemName hooks;
     merge := merge hooks;
     getItemFactory := getItemFactory hooks ++ [(key, fn)] |}.

(** [(obj, data, ctx) => fn(obj, data, ctx, options, stats)]. Data of
    another type than the one documented for the extractor is outside its
    interface and is taken to throw. *)
Definition callExtractor (fn : Extractor) (options : Options) : ExtractTap :=
  λ data ctx,
    match fn, data with
    | ForCompilation f, ICompilation compilation => f compilation ctx options
    | ForAsset f, IAsset name source => f (name, source) ctx options
    | ForChunkGroup f, INamedGroup name chunkGroup =>
        f (name, chunkGroup) ctx options
    | ForModule f, IModule module => f module ctx options
    | ForChunk f, IChunk chunk => f chunk ctx options
    | _, _ => liftC ThrowTypeError
    end.

(** The extractor tapped for ["compilation"] when [options.children] is
    truthy. *)
Definition extractChildren : ExtractTap :=
  λ data context,
    match data with
    | ICompilation comp =>
        reports ←
          mapM (λ child : Compilation,
                  factoryCreate (type context +:+ ".children")
                                (DArray (ICompilation <$> children comp))
                                context)
               (children comp);
        assign "children" (VArr reports)
    | _ => liftC ThrowTypeError
    end.

(** The [getItemFactory] handler tapped when [options.children] is an
    array. *)
Definition childFactoryByIndex (optionsChildren : list val)
    (context : HookContext) : FactoryTap :=
  λ comp idx,
    if idx <? length optionsChildren
    then Some (createStatsFactory
                 (createStatsOptions
                    (default undefined (optionsChildren !! idx)) context))
    else None.

(** The [getItemFactory] handler tapped when [options.children] is
    neither an array nor [true]; the factory is made once, when the
    handler is tapped. *)
Definition childFactoryShared (optionsChildren : val)
    (context : HookContext) : FactoryTap :=
  let childFactory :=
    createStatsFactory (createStatsOptions optionsChildren context) in
  λ comp idx, Some childFactory.

(** The callback tapped on [compilation.hooks.statsFactory], acting on
    the hooks of the stats factory [stats]. *)
Definition statsFactoryTap (options : Options) (context : HookContext)
    (hooks : Hooks) : Hooks :=
  let hooks :=
    Config.iterateConfig SIMPLE_EXTRACTORS options
      (λ hookFor fn hooks, tapExtract hookFor (callExtractor fn options) hooks)
      hooks in
  let hooks :=
    foldl (λ hooks '(key, itemName), tapGetItemName key itemName hooks)
          hooks ITEM_NAMES in
  let hooks :=
    foldl (λ hooks '(key, merger), tapMerge key merger hooks) hooks MERGER in
  if truthy (optionValue options "children") then
    let hooks := tapExtract "compilation" extractChildren hooks in
    match optionValue options "children" with
    | VArr optionsChildren =>
        tapGetItemFactory "compilation.children[].compilation"
          (childFactoryByIndex optionsChildren context) hooks
    | VPrim (PBool true) => hooks
    | optionsChildren =>
        tapGetItemFactory "compilation.children[].compilation"
          (childFactoryShared optionsChildren context) hooks
    end
  else hooks.

(** Modelled from the spec: the dispatch of the hook registry, which is
    not in this file. For [extract], all handlers tapped for the key run
    in order of arrival against the same output object. *)
Definition callExtract (hooks : Hooks) (key : string) (data : Item)
    (context : Ctx) : M unit :=
  foldr (λ '(k, fn) rest,
           if String.eqb k key then fn data context;; rest else rest)
        (mret tt) (extract hooks).

(** Modelled from the spec: for [getItemFactory] the result is the first
    result that is not [undefined] among the handlers tapped for the key,
    and without such a result the factory itself is used. *)
Definition callGetItemFactory (hooks : Hooks) (key : string) (data : Item)
    (idx : nat) : option StatsFactory :=
  foldr (λ '(k, fn) rest,
           if String.eqb k key
           then match fn data idx with
                | Some factory => Some factory
                | None => rest
                end
           else rest)
        None (getItemFactory hooks).

Definition itemFactory (self : StatsFactory) (hooks : Hooks) (key : string)
    (data : Item) (idx : nat) : StatsFactory :=
  default self (callGetItemFactory hooks key data idx).

(** What a run leaves besides the state of the factory. *)
Definition outcome {A : Type} (c : Completion (A * FactoryState))
  : Completion A :=
  match c with
  | Return (a, _) => Return a
  | ThrowTypeError => ThrowTypeError
  end.

(** One extraction: a fresh output object, every extractor tapped for
    the name of the item run on it; the result is the report node. *)
Definition extractNode (hooks : Hooks) (name : string) (data : Item)
    (context : Ctx) (w : FactoryState) : Completion (val * FactoryState) :=
  match callExtract hooks name data context ∅ w with
  | Return (_, object, w') => Return (VObj object, w')
  | ThrowTypeError => ThrowTypeError
  end.

(** The extractors tapped by the callback: the enabled entries of
    [SIMPLE_EXTRACTORS], then the extractor of the children. *)
Definition tappedExtractors (options : Options) : list (string * ExtractTap) :=
  ((λ '(hookFor, _, fn), (hookFor, callExtractor fn options)) <$>
   Config.enabled SIMPLE_EXTRACTORS options) ++
  (if truthy (optionValue options "children")
   then [("compilation", extractChildren)] else []).

(** The [getItemFactory] handlers tapped by the callback. *)
Definition tappedFactories (options : Options) (context : HookContext)
  : list (string * FactoryTap) :=
  if truthy (optionValue options "children") then
    match optionValue options "children" with
    | VArr optionsChildren =>
        [("compilation.children[].compilation",
          childFactoryByIndex optionsChildren context)]
    | VPrim (PBool true) => []
    | optionsChildren =>
        [("compilation.children[].compilation",
          childFactoryShared optionsChildren context)]
    end
  else [].

End Extractors.

End Factory.


(** ** The fields an extractor group writes *)

Module Footprint.
Import Factory.

Section Footprint.
Context `{access : DataAccess}.

(** The fields the extractors of a group assign. *)
Definition extractorFields (hookFor : string) : list string :=
  if String.eqb hookFor "compilation" then
    [ "needAdditionalPass"; "hash"; "version"; "time"; "builtAt";
      "publicPath"; "outputPath"; "assets"; "filteredAssets"; "chunks";
      "modules"; "filteredModules"; "entrypoints"; "children" ]
  else if String.eqb hookFor "asset" then
    [ "name"; "size"; "chunks"; "chunkNames"; "emitted"; "isOverSizeLimit" ]
  else if String.eqb hookFor "chunkGroup" then
    [ "name"; "chunks"; "assets"; "children"; "childAssets" ]
  else if String.eqb hookFor "module" then
    [ "id"; "identifier"; "name"; "index"; "preOrderIndex"; "index2";
      "postOrderIndex"; "size"; "sizes"; "cacheable"; "built"; "optional";
      "runtime"; "chunks"; "issuer"; "issuerId"; "issuerName"; "issuerPath";
      "profile"; "failed"; "errors"; "warnings"; "orphan"; "assets";
      "reasons"; "usedExports"; "providedExports"; "optimizationBailout";
      "depth"; "modules"; "filteredModules"; "source" ]
  else if String.eqb hookFor "moduleIssuer" then
    [ "id"; "identifier"; "name"; "profile" ]
  else if String.eqb hookFor "chunk" then
    [ "modules"; "filteredModules"; "rootModules"; "filteredRootModules";
      "nonRootModules" ]
  else [].

(** A computation that leaves every field outside [fields] as it was and
    removes no field. *)
Definition confined {A : Type} (fields : list string) (m : M A) : Prop :=
  ∀ (object object' : Obj) (w w' : FactoryState) (a : A),
    m object w = Return (a, object', w') →
    (∀ key, key ∉ fields → object' !! key = object !! key)
    ∧ dom object ⊆ dom object'.

(** The chain of issuers from a module on: each module of the chain is
    the issuer of the one before, and the last one has no issuer. *)
Inductive IssuerChain (compilation : Compilation)
  : BuildModule + Nullish → list BuildModule → Prop :=
| chain_end (n : Nullish) : IssuerChain compilation (inr n) []
| chain_step (module : BuildModule) (chain : list BuildModule) :
    IssuerChain compilation (getIssuer compilation module) chain →
    IssuerChain compilation (inl module) (module :: chain).

End Footprint.

End Footprint.

(** ** A small build, for evaluating the extractors

    Compilation 0 has the children 1 and 2, the asset "main.js" in chunk 0
    named "main", and the entry point "main"; its factory counts the calls
    of [create] in its state and reports one empty node per item. *)

Definition exampleCarriers : Factory.Carriers :=
  {| Factory.Compilation := nat;
     Factory.BuildModule := nat;
     Factory.Chunk := nat;
     Factory.ChunkGroup := nat;
     Factory.Source := nat;
     Factory.Foreign := unit;
     Factory.FactoryState := nat;
     Factory.StatsFactory := val;
     Factory.StatsOptions := val;
     Factory.HookContext := unit |}.

Definition exampleCreate (type : string)
    (data : @Factory.Data exampleCarriers)
    (context : @Factory.Ctx exampleCarriers) (calls : nat)
  : Completion (val * nat) :=
  Return (match data with
          | Factory.DArray items => VArr ((λ _, VObj ∅) <$> items)
          | _ => VObj ∅
          end,
          S calls).

Definition exampleAccess : @Factory.DataAccess exampleCarriers.
Proof.
  refine (@Factory.Build_DataAccess exampleCarriers
    (* packageVersion *) (VPrim (PStr "5.0.0"))
    (* sortIds *) (λ ids, ids)
    (* isOverSizeLimit *) (λ _, VPrim (PBool false))
    (* toNumberOther *) (λ _, PNaN)
    (* hostProperty *) (λ _ _, undefined)
    (* needAdditionalPass *) (λ _, undefined)
    (* hash *) (λ _, VPrim (PStr "abc"))
    (* getPublicPath *) (λ _ _, VPrim (PStr "/"))
    (* outputPath *) (λ _, VPrim (PStr "/dist"))
    (* assets *) (λ _, [("main.js", 120)])
    (* chunks *) (λ _, [0])
    (* modules *) (λ _, [])
    (* entrypoints *) (λ _, [("main", 0)])
    (* namedChunkGroups *) (λ _, [("main", 0); ("vendor", 1)])
    (* children *) (λ c, if c =? 0 then [1; 2] else [])
    (* emittedAssetsHas *) (λ _ _, true)
    (* builtModulesHas *) (λ _ _, true)
    (* sourceSize *) (λ size, VPrim (PNum (Z.of_nat size)))
    (* sourceText *) (λ _, VPrim (PStr ""))
    (* chunkId *) (λ c, PNum (Z.of_nat c))
    (* chunkIds *) (λ c, [PNum (Z.of_nat c)])
    (* chunkName *) (λ _, PStr "main")
    (* chunkFiles *) (λ _, ["main.js"])
    (* groupName *) (λ _, VPrim (PStr "main"))
    (* groupChunks *) (λ _, [0])
    (* getChildrenByOrders *) (λ _ _, [])
    (* getModuleId *) (λ _ m, VPrim (PNum (Z.of_nat m)))
    (* getOrderedModuleChunks *) (λ _ _, [0])
    (* getNumberOfModuleChunks *) (λ _ _, 1%Z)
    (* getChunkModules *) (λ _ _, [])
    (* getChunkRootModules *) (λ _ _, [])
    (* getNumberOfChunkModules *) (λ _ _, 0%Z)
    (* getIssuer *) (λ _ _, inr Factory.JsNull)
    (* getProfile *) (λ _ _, Factory.DUndefined)
    (* getIncomingConnections *) (λ _ _, @Factory.DForeign exampleCarriers tt)
    (* getPreOrderIndex *) (λ _ _, VPrim (PNum 0))
    (* getPostOrderIndex *) (λ _ _, VPrim (PNum 0))
    (* getUsedExports *) (λ _ _, Factory.UsedNull)
    (* getOptimizationBailout *) (λ _ _, [])
    (* getDepth *) (λ _ _, VPrim (PNum 0))
    (* identifier *) (λ _, VPrim (PStr "./index.js"))
    (* readableIdentifier *) (λ _ _, VPrim (PStr "./index.js"))
    (* moduleSize *) (λ _, VPrim (PNum 10))
    (* moduleSizeOf *) (λ _ _, VPrim (PNum 10))
    (* getSourceTypes *) (λ _, ["javascript"])
    (* cacheable *) (λ _, VPrim (PBool true))
    (* isOptional *) (λ _ _, VPrim (PBool false))
    (* moduleType *) (λ _, PStr "javascript/auto")
    (* moduleError *) (λ _, undefined)
    (* moduleErrors *) (λ _, None)
    (* moduleWarnings *) (λ _, None)
    (* buildInfoAssets *) (λ _, None)
    (* providedExports *) (λ _, VPrim PNull)
    (* nestedModules *) (λ _, None)
    (* originalSource *) (λ _, None)
    (* issuerDepth *) (λ _ _, 0)
    (* issuerDepth_issuer *) (_)
    (* create *) (exampleCreate)
    (* createStatsOptions *) (λ childOptions _, childOptions)
    (* createStatsFactory *) (λ statsOptions, statsOptions)
    (* nodeName *) (λ _, "")).
  intros c m i Hissuer. discriminate Hissuer.
Defined.

(** The same build with issuers: module [n + 1] is issued by module
    [n], and module 0 has no issuer. *)
Definition exampleIssuers : @Factory.DataAccess exampleCarriers.
Proof.
  refine (@Factory.Build_DataAccess exampleCarriers
    (* packageVersion *) (@Factory.packageVersion exampleCarriers exampleAccess)
    (* sortIds *) (@Factory.sortIds exampleCarriers exampleAccess)
    (* isOverSizeLimit *) (@Factory.isOverSizeLimit exampleCarriers exampleAccess)
    (* toNumberOther *) (@Factory.toNumberOther exampleCarriers exampleAccess)
    (* hostProperty *) (@Factory.hostProperty exampleCarriers exampleAccess)
    (* needAdditionalPass *) (@Factory.needAdditionalPass exampleCarriers exampleAccess)
    (* hash *) (@Factory.hash exampleCarriers exampleAccess)
    (* getPublicPath *) (@Factory.getPublicPath exampleCarriers exampleAccess)
    (* outputPath *) (@Factory.outputPath exampleCarriers exampleAccess)
    (* assets *) (@Factory.assets exampleCarriers exampleAccess)
    (* chunks *) (@Factory.chunks exampleCarriers exampleAccess)
    (* modules *) (@Factory.modules exampleCarriers exampleAccess)
    (* entrypoints *) (@Factory.entrypoints exampleCarriers exampleAccess)
    (* namedChunkGroups *) (@Factory.namedChunkGroups exampleCarriers exampleAccess)
    (* children *) (@Factory.children exampleCarriers exampleAccess)
    (* emittedAssetsHas *) (@Factory.emittedAssetsHas exampleCarriers exampleAccess)
    (* builtModulesHas *) (@Factory.builtModulesHas exampleCarriers exampleAccess)
    (* sourceSize *) (@Factory.sourceSize exampleCarriers exampleAccess)
    (* sourceText *) (@Factory.sourceText exampleCarriers exampleAccess)
    (* chunkId *) (@Factory.chunkId exampleCarriers exampleAccess)
    (* chunkIds *) (@Factory.chunkIds exampleCarriers exampleAccess)
    (* chunkName *) (@Factory.chunkName exampleCarriers exampleAccess)
    (* chunkFiles *) (@Factory.chunkFiles exampleCarriers exampleAccess)
    (* groupName *) (@Factory.groupName exampleCarriers exampleAccess)
    (* groupChunks *) (@Factory.groupChunks exampleCarriers exampleAccess)
    (* getChildrenByOrders *) (@Factory.getChildrenByOrders exampleCarriers exampleAccess)
    (* getModuleId *) (@Factory.getModuleId exampleCarriers exampleAccess)
    (* getOrderedModuleChunks *) (@Factory.getOrderedModuleChunks exampleCarriers exampleAccess)
    (* getNumberOfModuleChunks *) (@Factory.getNumberOfModuleChunks exampleCarriers exampleAccess)
    (* getChunkModules *) (@Factory.getChunkModules exampleCarriers exampleAccess)
    (* getChunkRootModules *) (@Factory.getChunkRootModules exampleCarriers exampleAccess)
    (* getNumberOfChunkModules *) (@Factory.getNumberOfChunkModules exampleCarriers exampleAccess)
    (* getIssuer *)
      (λ _ (module : nat),
         match module with
         | S issuer => inl issuer
         | O => inr Factory.JsNull
         end)
    (* getProfile *) (@Factory.getProfile exampleCarriers exampleAccess)
    (* getIncomingConnections *) (@Factory.getIncomingConnections exampleCarriers exampleAccess)
    (* getPreOrderIndex *) (@Factory.getPreOrderIndex exampleCarriers exampleAccess)
    (* getPostOrderIndex *) (@Factory.getPostOrderIndex exampleCarriers exampleAccess)
    (* getUsedExports *) (@Factory.getUsedExports exampleCarriers exampleAccess)
    (* getOptimizationBailout *) (@Factory.getOptimizationBailout exampleCarriers exampleAccess)
    (* getDepth *) (@Factory.getDepth exampleCarriers exampleAccess)
    (* identifier *) (@Factory.identifier exampleCarriers exampleAccess)
    (* readableIdentifier *) (@Factory.readableIdentifier exampleCarriers exampleAccess)
    (* moduleSize *) (@Factory.moduleSize exampleCarriers exampleAccess)
    (* moduleSizeOf *) (@Factory.moduleSizeOf exampleCarriers exampleAccess)
    (* getSourceTypes *) (@Factory.getSourceTypes exampleCarriers exampleAccess)
    (* cacheable *) (@Factory.cacheable exampleCarriers exampleAccess)
    (* isOptional *) (@Factory.isOptional exampleCarriers exampleAccess)
    (* moduleType *) (@Factory.moduleType exampleCarriers exampleAccess)
    (* moduleError *) (@Factory.moduleError exampleCarriers exampleAccess)
    (* moduleErrors *) (@Factory.moduleErrors exampleCarriers exampleAccess)
    (* moduleWarnings *) (@Factory.moduleWarnings exampleCarriers exampleAccess)
    (* buildInfoAssets *) (@Factory.buildInfoAssets exampleCarriers exampleAccess)
    (* providedExports *) (@Factory.providedExports exampleCarriers exampleAccess)
    (* nestedModules *) (@Factory.nestedModules exampleCarriers exampleAccess)
    (* originalSource *) (@Factory.originalSource exampleCarriers exampleAccess)
    (* issuerDepth *) (λ _ (module : nat), module)
    (* issuerDepth_issuer *) (_)
    (* create *) (@Factory.create exampleCarriers exampleAccess)
    (* createStatsOptions *) (@Factory.createStatsOptions exampleCarriers exampleAccess)
    (* createStatsFactory *) (@Factory.createStatsFactory exampleCarriers exampleAccess)
    (* nodeName *) (@Factory.nodeName exampleCarriers exampleAccess)).
  intros c [|module] i Hissuer; [discriminate Hissuer|].
  injection Hissuer as <-. simpl. lia.
Defined.

Definition exampleContext : @Factory.Ctx exampleCarriers :=
  {| Factory.type := "compilation";
     Factory.compilation := (0 : @Factory.Compilation exampleCarriers);
     Factory.startTime := 1000;
     Factory.endTime := 1250 |}.

Definition exampleHookContext : @Factory.HookContext exampleCarriers := tt.

Definition exampleRoot : @Factory.Item exampleCarriers :=
  @Factory.ICompilation exampleCarriers 0.

Definition exampleOptions : Options :=
  <["hash" := VPrim (PBool true)]>
    (<["assets" := VPrim (PBool true)]>
       (<["chunkGroups" := VPrim (PBool true)]>
          (<["children" := VArr [VObj ∅; VPrim (PBool false)]]> ∅))).

(** The table of the specification's example and its alignment. *)
Definition exampleRows : list (list string) := [["a"; "bb"]; ["ccc"; "d"]].
Definition exampleAlign : list string := ["l"; "r"].


Definition exampleAsset : @Factory.Item exampleCarriers :=
  @Factory.IAsset exampleCarriers "main.js" 120.

Definition exampleModule : @Factory.Item exampleCarriers :=
  @Factory.IModule exampleCarriers 3.

Definition exampleState : @Factory.FactoryState exampleCarriers := 0.

Definition exampleNested : Options :=
  <["children" := VObj (<["hash" := VPrim (PBool true)]> ∅)]> ∅.

Definition exampleAllChildren : Options :=
  <["children" := VPrim (PBool true)]> ∅.

(** * Properties *)

(** ** Field ordering *)

Section OrderFacts.
Import Order.

Lemma preferStep_foldl (set : gset string) (preferedOrder : list string)
    (acc : list string) (used : gset string) :
  foldl (preferStep set) (acc, used) preferedOrder =
    (acc ++ filter (λ e, endsWith e "!" = true ∨ e ∈ set) preferedOrder,
     list_to_set
       (filter (λ e, endsWith e "!" = true ∨ e ∈ set) preferedOrder) ∪ used).
Proof.
  revert acc used.
  induction preferedOrder as [|e rest IH]; intros acc used; simpl.
  - rewrite app_nil_r. f_equal. set_solver.
  - unfold preferStep at 2. simpl.
    destruct (endsWith e "!") eqn:Hbang; simpl.
    + rewrite IH, filter_cons_True by (left; done).
      rewrite <- app_assoc. simpl. f_equal. set_solver.
    + case_bool_decide as Hin.
      * rewrite IH, filter_cons_True by (right; done).
        rewrite <- app_assoc. simpl. f_equal. set_solver.
      * rewrite IH, filter_cons_False; [done|].
        intros [?|?]; [congruence|done].
Qed.

Lemma restStep_foldl (usedSet : gset string) (originalArray acc : list string) :
  foldl (restStep usedSet) acc originalArray =
    acc ++ filter (λ e, e ∉ usedSet) originalArray.
Proof.
  revert acc. induction originalArray as [|e rest IH]; intros acc; simpl.
  - by rewrite app_nil_r.
  - unfold restStep at 2.
    destruct (decide (e ∉ usedSet)) as [Hout|Hin].
    + rewrite bool_decide_eq_true_2 by done.
      rewrite IH, filter_cons_True by done. by rewrite <- app_assoc.
    + rewrite bool_decide_eq_false_2 by done.
      rewrite IH, filter_cons_False by done. done.
Qed.

Lemma createOrder_filters (present preferred : list string) :
  createOrder present preferred =
    keptPreferred present preferred ++
    remaining present (keptPreferred present preferred).
Proof.
  unfold createOrder, keptPreferred, remaining.
  rewrite preferStep_foldl. simpl. rewrite restStep_foldl.
  f_equal.
  - apply list_filter_iff. intros e. by rewrite elem_of_list_to_set.
  - apply list_filter_iff. intros e.
    rewrite elem_of_union, elem_of_list_to_set.
    assert (Heq : filter (λ e0, endsWith e0 "!" = true ∨
                                 e0 ∈ (list_to_set present : gset string))
                         preferred =
                  filter (λ e0, endsWith e0 "!" = true ∨ e0 ∈ present)
                         preferred).
    { apply list_filter_iff. intros x. by rewrite elem_of_list_to_set. }
    rewrite Heq. set_solver.
Qed.

End OrderFacts.

(** C3. [createOrder(present, preferred)] is the preferred entries that
    are reserved (ending in "!") or present, in preferred order, followed
    by the present fields not yet emitted, in their original order; a
    reserved entry is emitted whether or not it is present, no present
    field is dropped, and [createOrder(["b","a","z"], ["a","b"])] is
    [["a","b","z"]]. *)
Theorem createOrder_preferred_then_rest (present preferred : list string) :
  Order.createOrder present preferred =
    Order.keptPreferred present preferred ++
    Order.remaining present (Order.keptPreferred present preferred)
  ∧ (∀ e, e ∈ preferred → endsWith e "!" = true →
          e ∈ Order.createOrder present preferred)
  ∧ (∀ e, e ∈ present → e ∈ Order.createOrder present preferred)
  ∧ Order.createOrder ["b"; "a"; "z"] ["a"; "b"] = ["a"; "b"; "z"].
Proof.
  split; [apply createOrder_filters|].
  rewrite createOrder_filters.
  unfold Order.keptPreferred, Order.remaining.
  repeat split.
  - intros e Hin Hbang. apply elem_of_app. left.
    apply list_elem_of_filter. auto.
  - intros e Hin. apply elem_of_app.
    destruct (decide (e ∈ filter (λ x, endsWith x "!" = true ∨ x ∈ present)
                               preferred)) as [Hk|Hk].
    + by left.
    + right. apply list_elem_of_filter. auto.
Qed.

(** ** Strings *)

Lemma append_empty_l (t : string) : "" +:+ t = t.
Proof. reflexivity. Qed.

Lemma append_cons (c : ascii) (s t : string) :
  String c s +:+ t = String c (s +:+ t).
Proof. reflexivity. Qed.

Lemma append_nil_r (s : string) : s +:+ "" = s.
Proof.
  induction s as [|c s IH]; [done|]. by rewrite append_cons, IH.
Qed.

Lemma append_assoc (s t u : string) : (s +:+ t) +:+ u = s +:+ (t +:+ u).
Proof.
  induction s as [|c s IH]; [done|]. by rewrite !append_cons, IH.
Qed.

Lemma length_append (s t : string) :
  String.length (s +:+ t) = String.length s + String.length t.
Proof.
  induction s as [|c s IH]; [done|]. rewrite append_cons. simpl.
  by rewrite IH.
Qed.

Lemma length_spaces (n : nat) : String.length (spaces n) = n.
Proof.
  induction n as [|n IH]; [done|]. simpl. rewrite length_append, IH. done.
Qed.

Lemma spaces_snoc (n : nat) : spaces (S n) = " " +:+ spaces n.
Proof. reflexivity. Qed.

Lemma join_empty_cons (x : string) (xs : list string) :
  join "" (x :: xs) = x +:+ join "" xs.
Proof.
  unfold join. destruct xs as [|y ys]; simpl; [by rewrite append_nil_r|done].
Qed.

(** ** Table rendering *)

Section TableFacts.
Import Table.

Lemma sizeStep_length row cs i : length (sizeStep row cs i) = length cs.
Proof. unfold sizeStep. case_match; [apply length_insert|done]. Qed.

Lemma sizeStep_at row cs i c :
  i < length cs →
  sizeAt (sizeStep row cs i) c =
    if decide (c = i)
    then Nat.max (sizeAt cs c) (String.length (cellText row c))
    else sizeAt cs c.
Proof.
  intros Hi. unfold sizeStep.
  destruct (sizeAt cs i <? String.length (cellText row i)) eqn:Hlt.
  - apply Nat.ltb_lt in Hlt. unfold sizeAt in *.
    destruct (decide (c = i)) as [->|Hne].
    + rewrite list_lookup_insert_eq by done. simpl. lia.
    + by rewrite list_lookup_insert_ne.
  - apply Nat.ltb_ge in Hlt.
    destruct (decide (c = i)) as [->|Hne]; [lia|done].
Qed.

Lemma sizeStep_foldl row idxs : ∀ cs c,
  (∀ i, i ∈ idxs → i < length cs) →
  length (foldl (sizeStep row) cs idxs) = length cs ∧
  sizeAt (foldl (sizeStep row) cs idxs) c =
    if decide (c ∈ idxs)
    then Nat.max (sizeAt cs c) (String.length (cellText row c))
    else sizeAt cs c.
Proof.
  induction idxs as [|i idxs IH]; intros cs c Hin; simpl.
  - done.
  - assert (Hi : i < length cs) by (apply Hin; left).
    destruct (IH (sizeStep row cs i) c) as [Hlen Hat].
    { intros j Hj. rewrite sizeStep_length. apply Hin. by right. }
    split; [by rewrite Hlen, sizeStep_length|].
    rewrite Hat, (sizeStep_at row cs i c Hi).
    destruct (decide (c ∈ idxs)) as [Hc|Hc];
      destruct (decide (c = i)) as [->|Hne].
    + rewrite decide_True by left. lia.
    + rewrite decide_True by (by right). done.
    + rewrite decide_True by left. done.
    + rewrite decide_False; [done|].
      intros [?|?]%elem_of_cons; done.
Qed.

Lemma measure_foldl (array : list (list string)) (cols : nat) : ∀ cs c,
  length cs = cols → c < cols →
  let out :=
    foldl (λ colSizes row, foldl (sizeStep row) colSizes (seq 0 cols))
          cs array in
  length out = cols ∧
  sizeAt out c =
    foldl (λ w row, Nat.max w (String.length (cellText row c)))
          (sizeAt cs c) array.
Proof.
  induction array as [|row array IH]; intros cs c Hlen Hc; simpl.
  - done.
  - destruct (sizeStep_foldl row (seq 0 cols) cs c) as [Hl Hat].
    { intros i Hi%elem_of_seq. lia. }
    destruct (IH (foldl (sizeStep row) cs (seq 0 cols)) c) as [Hl' Hat'];
      [congruence|done|].
    split; [done|].
    rewrite Hat', Hat. rewrite decide_True; [done|].
    apply elem_of_seq. lia.
Qed.

Lemma max_foldl_foldr (array : list (list string)) (c : nat) : ∀ w,
  foldl (λ w row, Nat.max w (String.length (cellText row c))) w array =
    Nat.max w (colWidth array c).
Proof.
  unfold colWidth.
  induction array as [|row array IH]; intros w; simpl; [lia|].
  rewrite IH. lia.
Qed.

Lemma measure_colWidth (array : list (list string)) (cols c : nat) :
  c < cols → sizeAt (measure array cols) c = colWidth array c.
Proof.
  intros Hc. unfold measure.
  destruct (measure_foldl array cols (replicate cols 0) c) as [_ Hat];
    [apply length_replicate|done|].
  simpl in Hat. rewrite Hat, max_foldl_foldr.
  unfold sizeAt. rewrite lookup_replicate_2 by done. simpl. done.
Qed.

Lemma cell_le_colWidth (array : list (list string)) row c :
  row ∈ array → String.length (cellText row c) ≤ colWidth array c.
Proof.
  unfold colWidth. induction array as [|r array IH]; intros Hin.
  - by apply elem_of_nil in Hin.
  - simpl. apply elem_of_cons in Hin as [->|Hin]; [lia|].
    specialize (IH Hin). lia.
Qed.

Lemma padLoop_spaces : ∀ fuel l size notLast str,
  size - l ≤ fuel →
  padLoop fuel l size notLast str =
    str +:+ (if notLast then spaces (size - l) else "").
Proof.
  induction fuel as [|fuel IH]; intros l size notLast str Hfuel; simpl.
  - replace (size - l) with 0 by lia. simpl.
    destruct notLast; by rewrite append_nil_r.
  - destruct (l <? size) eqn:Hlt; simpl.
    + apply Nat.ltb_lt in Hlt. destruct notLast; simpl.
      * rewrite IH by lia. rewrite append_assoc. f_equal.
        replace (size - l) with (S (size - S l)) by lia. done.
      * by rewrite append_nil_r.
    + apply Nat.ltb_ge in Hlt. replace (size - l) with 0 by lia. simpl.
      destruct notLast; by rewrite append_nil_r.
Qed.

Lemma alignIs_exclusive align col :
  alignIs align col "l" = true → alignIs align col "r" = false.
Proof.
  unfold alignIs. intros H%bool_decide_eq_true.
  apply bool_decide_eq_false. rewrite H. by intros [=].
Qed.

Lemma lineStep_cell row align splitter array cols str col :
  col < cols →
  lineStep row align splitter (measure array cols) cols str col =
    str +:+
    ((if col =? cols - 1
      then bareCell align col (cellText row col)
      else paddedCell align col (colWidth array col) (cellText row col)) +:+
     gapAfter (splitterOr splitter) cols col (colWidth array col)).
Proof.
  intros Hc. unfold lineStep, gapAfter.
  rewrite (measure_colWidth array cols col Hc).
  rewrite padLoop_spaces by lia.
  unfold bareCell, paddedCell.
  destruct (col =? cols - 1); simpl;
    destruct (alignIs align col "l"), (alignIs align col "r");
    destruct ((col + 1 <? cols) && negb (colWidth array col =? 0));
    simpl; rewrite ?append_nil_r, ?append_assoc; simpl;
    rewrite ?append_nil_r, ?append_assoc; done.
Qed.

Lemma lineStep_foldl row align splitter array cols : ∀ idxs str,
  (∀ i, i ∈ idxs → i < cols) →
  foldl (lineStep row align splitter (measure array cols) cols) str idxs =
    str +:+
    join ""
      (map (λ col,
              (if col =? cols - 1
               then bareCell align col (cellText row col)
               else paddedCell align col (colWidth array col)
                               (cellText row col)) +:+
              gapAfter (splitterOr splitter) cols col (colWidth array col))
           idxs).
Proof.
  induction idxs as [|i idxs IH]; intros str Hin.
  - simpl. by rewrite append_nil_r.
  - cbn [foldl map]. rewrite IH by (intros j Hj; apply Hin; by right).
    rewrite lineStep_cell by (apply Hin; left).
    rewrite join_empty_cons, append_assoc. done.
Qed.

Lemma table_lines first rest align splitter :
  table (first :: rest) align splitter =
    Return (join LF
              (map (lineOf (first :: rest) align (splitterOr splitter)
                           (length first))
                   (first :: rest))).
Proof.
  unfold table. f_equal. f_equal. apply map_ext. intros row.
  rewrite lineStep_foldl by (intros i Hi%elem_of_seq; lia).
  done.
Qed.

Lemma paddedCell_width array align row col :
  row ∈ array →
  alignIs align col "l" || alignIs align col "r" = true →
  String.length
    (paddedCell align col (colWidth array col) (cellText row col)) =
  colWidth array col.
Proof.
  intros Hrow Hal. pose proof (cell_le_colWidth array row col Hrow) as Hle.
  unfold paddedCell.
  destruct (alignIs align col "l") eqn:Hl.
  - rewrite (alignIs_exclusive _ _ Hl).
    rewrite !length_append, length_spaces. simpl. lia.
  - simpl in Hal. rewrite Hal.
    rewrite !length_append, length_spaces. simpl. lia.
Qed.

End TableFacts.


(** C2, as stated, fails on the example: the last column is right-aligned
    and its cell "d" would have to be padded on the left to width 2; the
    rendered second line is "ccc  d", not "ccc   d". *)
Lemma table_last_column_not_padded :
  Table.table exampleRows exampleAlign None =
    Return ("a    bb" +:+ LF +:+ "ccc  d")
  ∧ join LF (map (Table.lineAllPadded exampleRows exampleAlign "  " 2)
                 exampleRows) =
    "a    bb" +:+ LF +:+ "ccc   d"
  ∧ Table.table exampleRows exampleAlign None ≠
    Return (join LF (map (Table.lineAllPadded exampleRows exampleAlign "  " 2)
                         exampleRows)).
Proof. by vm_compute. Qed.

(** C2, amended. On the example [table] returns "a    bb" / "ccc  d":
    column 0 is padded on the right to width 3 and followed by the default
    two-space gap, the last column is not padded. In general every line is
    the concatenation of its cells, where a cell of any column but the last
    is padded with spaces to the maximum width of its column (on the left
    when right-aligned, on the right when left-aligned, so that it is
    exactly that wide) and a cell of the last column is emitted bare. *)
Theorem table_pads_all_but_last_column :
  Table.table exampleRows exampleAlign None =
    Return ("a    bb" +:+ LF +:+ "ccc  d")
  ∧ ∀ (first : list string) (rest : list (list string))
      (align : list string) (splitter : option string),
      Table.table (first :: rest) align splitter =
        Return (join LF
                  (map (Table.lineOf (first :: rest) align
                                     (Table.splitterOr splitter)
                                     (length first))
                       (first :: rest)))
      ∧ ∀ (row : list string) (col : nat),
          row ∈ first :: rest →
          Table.alignIs align col "l" || Table.alignIs align col "r" = true →
          String.length
            (Table.paddedCell align col
               (Table.colWidth (first :: rest) col)
               (Table.cellText row col)) =
          Table.colWidth (first :: rest) col.
Proof.
  split; [by vm_compute|].
  intros first rest align splitter. split.
  - apply table_lines.
  - intros row col. apply paddedCell_width.
Qed.

Lemma table_pads_all_but_last_column_witness :
  ["ccc"; "d"] ∈ exampleRows
  ∧ Table.alignIs exampleAlign 0 "l" || Table.alignIs exampleAlign 0 "r" = true
  ∧ String.length
      (Table.paddedCell exampleAlign 0 (Table.colWidth exampleRows 0)
         (Table.cellText ["ccc"; "d"] 0)) =
    Table.colWidth exampleRows 0.
Proof.
  assert (Hin : ["ccc"; "d"] ∈ exampleRows) by (right; left).
  assert (Hal : Table.alignIs exampleAlign 0 "l" ||
                Table.alignIs exampleAlign 0 "r" = true) by reflexivity.
  split; [exact Hin|]. split; [exact Hal|].
  exact (proj2 (proj2 table_pads_all_but_last_column
                  ["a"; "bb"] [["ccc"; "d"]] exampleAlign None)
               ["ccc"; "d"] 0 Hin Hal).
Defined.

(** C7, as stated, fails: [table] applied to an empty array of rows is not
    defined; it throws instead of returning a no-table signal. *)
Lemma table_empty_throws :
  Table.table [] (Table.chars "rrrlll") None = ThrowTypeError
  ∧ ¬ ∃ out : string,
        Table.table [] (Table.chars "rrrlll") None = Return out.
Proof.
  split; [reflexivity|]. intros [out Hout]. discriminate Hout.
Qed.

(** C7, amended. The no-table signal is produced by the caller: the
    [printItems] handler for ["compilation.assets"] returns [undefined]
    for zero items without calling [table], and for one or more items it
    returns the text of the table whose first row is the header, so [table]
    is never applied to an empty array by it; [table] itself throws on an
    empty array whatever the alignment and splitter. *)
Theorem assets_printer_suppresses_empty_table (bold : string → string) :
  Table.printItems_assets bold [] = Return None
  ∧ (∀ (item : list string) (items : list (list string)),
       ∃ text : string,
         Table.printItems_assets bold (item :: items) = Return (Some text)
         ∧ Table.table
             (map (λ h, if truthyStr (Some h) then bold h else h)
                  ["Asset"; "Size"; "Chunks"; ""; ""; "Chunk Names"]
              :: item :: items)
             (Table.chars "rrrlll") None = Return text)
  ∧ (∀ (align : list string) (splitter : option string),
       Table.table [] align splitter = ThrowTypeError).
Proof.
  split; [reflexivity|]. split; [|reflexivity].
  intros item items.
  unfold Table.printItems_assets.
  cbn [length Nat.eqb app].
  rewrite table_lines. eexists. split; reflexivity.
Qed.

(** ** Merging named items *)

Section MergeFacts.
Import Merge.
Context {Item : Type} (name : Item → string).

Lemma mergeToObject_foldl (items : list Item) : ∀ (acc : gmap string Item) k,
  foldl (λ obj item, <[name item := item]> obj) acc items !! k =
    match last (filter (λ it, name it = k) items) with
    | Some it => Some it
    | None => acc !! k
    end.
Proof.
  induction items as [|it items IH]; intros acc k; [done|].
  cbn [foldl]. rewrite IH.
  destruct (decide (name it = k)) as [Heq|Hne].
  - rewrite filter_cons_True by done.
    destruct (filter (λ it0, name it0 = k) items) as [|x xs] eqn:Hf.
    + simpl. rewrite <- Heq. apply lookup_insert_eq.
    + rewrite last_cons_cons.
      destruct (last (x :: xs)) eqn:Hl; [done|].
      by apply last_None in Hl.
  - rewrite filter_cons_False by done.
    destruct (last (filter (λ it0, name it0 = k) items)); [done|].
    by apply lookup_insert_ne.
Qed.

Lemma mergeToObject_lookup (items : list Item) (k : string) :
  mergeToObject name items !! k = last (filter (λ it, name it = k) items).
Proof.
  unfold mergeToObject. rewrite mergeToObject_foldl.
  destruct (last _); [done|apply lookup_empty].
Qed.

Lemma mergeToObject_list_to_map (items : list Item) :
  mergeToObject name items =
    list_to_map (reverse ((λ it, (name it, it)) <$> items)).
Proof.
  unfold mergeToObject.
  assert (Hgen : ∀ acc : gmap string Item,
    foldl (λ obj item, <[name item := item]> obj) acc items =
    foldr (λ p m, <[p.1 := p.2]> m) acc
          (reverse ((λ it, (name it, it)) <$> items))).
  { induction items as [|it items IH]; intros acc; [done|].
    cbn [foldl]. rewrite fmap_cons, reverse_cons, foldr_snoc. simpl.
    apply IH. }
  apply Hgen.
Qed.

Lemma mergeToObject_keys (items : list Item) :
  (reverse ((λ it, (name it, it)) <$> items)).*1 = reverse (name <$> items).
Proof. rewrite fmap_reverse, <- list_fmap_compose. done. Qed.

Lemma mergeToObject_perm (items items' : list Item) :
  NoDup (name <$> items) → items ≡ₚ items' →
  mergeToObject name items' = mergeToObject name items.
Proof.
  intros Hnd Hperm. rewrite !mergeToObject_list_to_map.
  apply list_to_map_proper.
  - rewrite mergeToObject_keys, reverse_Permutation, <- Hperm. exact Hnd.
  - rewrite !reverse_Permutation. by rewrite Hperm.
Qed.

Lemma mergeToObject_unique (items : list Item) (it : Item) :
  NoDup (name <$> items) → it ∈ items →
  mergeToObject name items !! name it = Some it.
Proof.
  intros Hnd Hin. rewrite mergeToObject_list_to_map.
  apply elem_of_list_to_map.
  - rewrite mergeToObject_keys, reverse_Permutation. exact Hnd.
  - rewrite elem_of_reverse.
    apply list_elem_of_fmap. by exists it.
Qed.

Lemma mergeToObject_dom (items : list Item) :
  dom (mergeToObject name items) = list_to_set (name <$> items).
Proof.
  rewrite mergeToObject_list_to_map, dom_list_to_map_L.
  rewrite mergeToObject_keys.
  apply set_eq. intros k.
  rewrite !elem_of_list_to_set, elem_of_reverse. done.
Qed.

End MergeFacts.

(** C4. [mergeToObject] returns the name-keyed mapping of the items: its
    keys are the names that occur, each key is mapped to the last item
    bearing that name, so with distinct names every item is found under
    its name and the order of the array does not matter; the example
    [[{name:"x",v:1},{name:"y",v:2}]] merges to
    [{x:{name:"x",v:1}, y:{name:"y",v:2}}], and of two items sharing a name
    the later one is kept. *)
Theorem mergeToObject_name_keyed {Item : Type} (name : Item → string)
    (items : list Item) :
  dom (Merge.mergeToObject name items) = list_to_set (name <$> items)
  ∧ (∀ k, Merge.mergeToObject name items !! k =
          last (filter (λ it, name it = k) items))
  ∧ (NoDup (name <$> items) →
     (∀ it, it ∈ items → Merge.mergeToObject name items !! name it = Some it)
     ∧ (∀ items', items ≡ₚ items' →
                  Merge.mergeToObject name items' =
                  Merge.mergeToObject name items))
  ∧ (∀ a b, name a = name b →
            Merge.mergeToObject name [a; b] = {[ name b := b ]})
  ∧ Merge.mergeToObject Merge.nv_name
      [ {| Merge.nv_name := "x"; Merge.v := 1 |};
        {| Merge.nv_name := "y"; Merge.v := 2 |} ] =
    <[ "x" := {| Merge.nv_name := "x"; Merge.v := 1 |} ]>
      (<[ "y" := {| Merge.nv_name := "y"; Merge.v := 2 |} ]> ∅).
Proof.
  split; [apply mergeToObject_dom|].
  split; [apply mergeToObject_lookup|].
  split; [|split].
  - intros Hnd. split.
    + intros it Hin. by apply mergeToObject_unique.
    + intros items' Hperm. by apply mergeToObject_perm.
  - intros a b Hab. unfold Merge.mergeToObject. simpl.
    rewrite Hab, insert_insert_eq. done.
  - unfold Merge.mergeToObject. simpl.
    apply insert_insert_ne. done.
Qed.

Lemma mergeToObject_name_keyed_witness :
  let x := {| Merge.nv_name := "x"; Merge.v := 1 |} in
  let y := {| Merge.nv_name := "y"; Merge.v := 2 |} in
  NoDup (Merge.nv_name <$> [x; y])
  ∧ Merge.mergeToObject Merge.nv_name [x; y] !! "y" = Some y
  ∧ Merge.mergeToObject Merge.nv_name [y; x] =
    Merge.mergeToObject Merge.nv_name [x; y]
  ∧ Merge.mergeToObject Merge.nv_name [x; {| Merge.nv_name := "x"; Merge.v := 7 |}] =
    {[ "x" := {| Merge.nv_name := "x"; Merge.v := 7 |} ]}.
Proof.
  intros x y.
  assert (Hnd : NoDup (Merge.nv_name <$> [x; y])).
  { apply (bool_decide_unpack _). by vm_compute. }
  pose proof (mergeToObject_name_keyed Merge.nv_name [x; y])
    as (_ & _ & Huniq & _ & _).
  pose proof (mergeToObject_name_keyed Merge.nv_name [x; y])
    as (_ & _ & _ & Hdup & _).
  destruct (Huniq Hnd) as [Hfind Hperm].
  split; [exact Hnd|]. split; [|split].
  - apply (Hfind y). right. left.
  - apply Hperm. apply perm_swap.
  - apply (Hdup x {| Merge.nv_name := "x"; Merge.v := 7 |}). reflexivity.
Defined.

(** ** The module element joiner *)

Section JoinerFacts.
Import Joiner.

(** Once [hasName] is set it stays set, and exactly the [name] and
    [identifier] elements are dropped. *)
Lemma filterItems_hasName (module : ModuleNode) (items : list Printed) :
  ∀ i : option string,
    filterItems module {| l_id := i; l_hasName := true |} items =
    filter (λ it, element it ≠ "name" ∧ element it ≠ "identifier") items.
Proof.
  induction items as [|it items IH]; intros i; [done|].
  cbn [filterItems]. unfold keep.
  destruct (String.eqb_spec (element it) "id") as [Hid|Hid].
  - cbn [l_hasName l_id].
    rewrite filter_cons_True by (rewrite Hid; split; discriminate).
    destruct (strictEq (id module) (name module)); cbn; by rewrite IH.
  - destruct (String.eqb_spec (element it) "name") as [Hn|Hn].
    + cbn [l_hasName]. rewrite filter_cons_False by (intros [? _]; done).
      apply IH.
    + destruct (String.eqb_spec (element it) "identifier") as [Hi|Hi].
      * cbn [l_hasName]. rewrite filter_cons_False by (intros [_ ?]; done).
        apply IH.
      * rewrite filter_cons_True by done. by rewrite IH.
Qed.

(** With an [id] field present, the preferred order puts it first. *)
Lemma createOrder_module_id_first (keys : list string) :
  "id" ∈ keys →
  ∃ rest, Order.createOrder keys PREFERED_ORDERS_module = "id" :: rest.
Proof.
  intros Hin. rewrite createOrder_filters.
  unfold Order.keptPreferred, PREFERED_ORDERS_module.
  rewrite filter_cons_True by (by right).
  eexists. reflexivity.
Qed.

Lemma joinModule_id_first (module : ModuleNode) (item : Printed)
    (rest : list Printed) :
  element item = "id" →
  strictEq (id module) (name module) = true →
  filterItems module {| l_id := None; l_hasName := false |} (item :: rest) =
    item :: filter (λ it, element it ≠ "name" ∧ element it ≠ "identifier")
                   rest.
Proof.
  intros Hid Heq. cbn [filterItems]. unfold keep.
  rewrite Hid, Heq. cbn. by rewrite filterItems_hasName.
Qed.

End JoinerFacts.

(** C5. For a module whose [id] equals its [name] (and whose report has an
    [id] field with a non-empty rendering), the elements handed to the
    module joiner are in the preferred order, and of them the joiner keeps
    the [id] element and no [name] element: the line is the rendering of
    [id] followed by the other contents, the [name] and [identifier]
    elements left out. *)
Theorem module_joiner_omits_duplicate_name (module : Joiner.ModuleNode)
    (keys : list string) (print : string → option string) :
  strictEq (Joiner.id module) (Joiner.name module) = true →
  "id" ∈ keys →
  truthyStr (print "id") = true →
  let items := Joiner.printedElements keys print in
  let kept :=
    Joiner.filterItems module
      {| Joiner.l_id := None; Joiner.l_hasName := false |} items in
  {| Joiner.element := "id"; Joiner.content := print "id" |} ∈ kept
  ∧ (∀ it, it ∈ kept → Joiner.element it ≠ "name")
  ∧ Joiner.joinModule items module =
      Joiner.joinContents
        (filter (λ it, Joiner.element it ≠ "name"
                       ∧ Joiner.element it ≠ "identifier") items)
  ∧ ∃ (rendered : string) (others : list string),
      print "id" = Some rendered
      ∧ Joiner.joinModule items module = join " " (rendered :: others).
Proof.
  intros Heq Hin Hprint items kept.
  destruct (createOrder_module_id_first keys Hin) as [rest Hrest].
  assert (Hitems : items =
            {| Joiner.element := "id"; Joiner.content := print "id" |}
            :: map (λ e, {| Joiner.element := e; Joiner.content := print e |})
                   rest).
  { unfold items, Joiner.printedElements. by rewrite Hrest. }
  assert (Hkept : kept =
            {| Joiner.element := "id"; Joiner.content := print "id" |}
            :: filter (λ it, Joiner.element it ≠ "name"
                             ∧ Joiner.element it ≠ "identifier")
                 (map (λ e, {| Joiner.element := e;
                               Joiner.content := print e |}) rest)).
  { unfold kept. rewrite Hitems. by apply joinModule_id_first. }
  split; [rewrite Hkept; left|].
  split.
  { intros it. rewrite Hkept. intros [->|Hit]%elem_of_cons; [done|].
    apply list_elem_of_filter in Hit. tauto. }
  split.
  { unfold Joiner.joinModule. fold kept. rewrite Hkept, Hitems.
    by rewrite filter_cons_True by done. }
  destruct (print "id") as [rendered|] eqn:Hid; [|done].
  exists rendered. eexists.
  unfold Joiner.joinModule. fold kept. rewrite Hkept.
  unfold Joiner.joinContents. cbn [omap list_omap Joiner.content].
  rewrite Hprint. split; reflexivity.
Qed.

Lemma module_joiner_omits_duplicate_name_witness :
  let module := {| Joiner.id := PStr "./a.js"; Joiner.name := PStr "./a.js" |} in
  let print := λ e : string,
    if String.eqb e "id" then Some "[./a.js]"
    else if String.eqb e "name" then Some "./a.js"
    else if String.eqb e "sizes" then Some "10 bytes"
    else None in
  strictEq (Joiner.id module) (Joiner.name module) = true
  ∧ "id" ∈ ["name"; "sizes"; "id"]
  ∧ truthyStr (print "id") = true
  ∧ Joiner.joinModule (Joiner.printedElements ["name"; "sizes"; "id"] print)
                      module = "[./a.js] 10 bytes".
Proof.
  intros module print.
  assert (Heq : strictEq (Joiner.id module) (Joiner.name module) = true)
    by reflexivity.
  assert (Hin : "id" ∈ ["name"; "sizes"; "id"]) by (right; right; left).
  assert (Hprint : truthyStr (print "id") = true) by reflexivity.
  destruct (module_joiner_omits_duplicate_name module
              ["name"; "sizes"; "id"] print Heq Hin Hprint)
    as (_ & _ & Hline & _).
  split; [exact Heq|]. split; [exact Hin|]. split; [exact Hprint|].
  rewrite Hline. reflexivity.
Defined.

(** ** Enabled extractors *)

Section ConfigFacts.
Import Config.
Context {H S : Type}.

Lemma iterateConfig_inner (options : Options) (fn : string → H → S → S)
    (hookFor : string) (subConfig : list (string * H)) : ∀ s : S,
  foldl (λ s '(option, handler),
           if String.eqb option "_" || truthy (optionValue options option)
           then fn hookFor handler s else s) s subConfig =
  foldl (λ s '(hookFor, _, handler), fn hookFor handler s) s
        ('(option, handler) ← subConfig;
         if decide (option = "_" ∨ truthy (optionValue options option) = true)
         then [(hookFor, option, handler)] else []).
Proof.
  induction subConfig as [|[option handler] subConfig IH]; intros s; [done|].
  cbn [foldl mbind list_bind]. rewrite foldl_app, IH. f_equal.
  destruct (String.eqb_spec option "_") as [->|Hne]; simpl; [done|].
  destruct (truthy (optionValue options option)) eqn:Ht.
  - rewrite decide_True by (by right). done.
  - rewrite decide_False; [done|]. intros [?|?]; done.
Qed.

Lemma iterateConfig_enabled (config : list (string * list (string * H)))
    (options : Options) (fn : string → H → S → S) : ∀ s : S,
  iterateConfig config options fn s =
    foldl (λ s '(hookFor, _, handler), fn hookFor handler s) s
          (enabled config options).
Proof.
  unfold iterateConfig, enabled.
  induction config as [|[hookFor subConfig] config IH]; intros s; [done|].
  cbn [foldl mbind list_bind]. rewrite foldl_app, IH. f_equal.
  apply iterateConfig_inner.
Qed.

Lemma elem_of_enabled (config : list (string * list (string * H)))
    (options : Options) (hookFor option : string) (handler : H) :
  (hookFor, option, handler) ∈ enabled config options ↔
    (∃ subConfig, (hookFor, subConfig) ∈ config
                  ∧ (option, handler) ∈ subConfig)
    ∧ (option = "_" ∨ truthy (optionValue options option) = true).
Proof.
  unfold enabled. rewrite list_elem_of_bind. split.
  - intros ([hf sub] & Hin & Hconf). apply list_elem_of_bind in Hin.
    destruct Hin as ([o h] & Hin & Hsub).
    case_decide as Henabled; [|by apply elem_of_nil in Hin].
    apply list_elem_of_singleton in Hin. injection Hin as -> -> ->.
    split; [by exists sub|done].
  - intros [(sub & Hconf & Hsub) Henabled].
    exists (hookFor, sub). split; [|done].
    apply list_elem_of_bind. exists (option, handler). split; [|done].
    rewrite decide_True by done. by left.
Qed.

End ConfigFacts.

(** C1. [iterateConfig] calls [fn] exactly on the enabled registrations,
    in the order of the configuration; a handler registered under an
    option key is enabled iff the value of that key in Options is truthy,
    and a handler registered under "_" is enabled for every Options, the
    empty object included. *)
Theorem iterateConfig_gating {H S : Type}
    (config : list (string * list (string * H))) (options : Options)
    (fn : string → H → S → S) (s : S) :
  Config.iterateConfig config options fn s =
    foldl (λ s '(hookFor, _, handler), fn hookFor handler s) s
          (Config.enabled config options)
  ∧ (∀ hookFor subConfig option handler,
       (hookFor, subConfig) ∈ config → (option, handler) ∈ subConfig →
       option ≠ "_" →
       ((hookFor, option, handler) ∈ Config.enabled config options ↔
        truthy (optionValue options option) = true))
  ∧ (∀ hookFor subConfig handler,
       (hookFor, subConfig) ∈ config → ("_", handler) ∈ subConfig →
       (hookFor, "_", handler) ∈ Config.enabled config options
       ∧ (hookFor, "_", handler) ∈ Config.enabled config ∅).
Proof.
  split; [apply iterateConfig_enabled|]. split.
  - intros hookFor subConfig option handler Hconf Hsub Hne.
    rewrite elem_of_enabled. split.
    + intros [_ [?|?]]; done.
    + intros Ht. split; [by exists subConfig|by right].
  - intros hookFor subConfig handler Hconf Hsub.
    split; apply elem_of_enabled; (split; [by exists subConfig|by left]).
Qed.

Lemma iterateConfig_gating_witness :
  let config : list (string * list (string * nat)) :=
    [("compilation", [("_", 0); ("hash", 1); ("assets", 2)]);
     ("asset", [("_", 3); ("performance", 4)])] in
  let options : Options := <["hash" := VPrim (PBool true)]>
                             (<["assets" := VPrim (PBool false)]> ∅) in
  Config.iterateConfig config options (λ hookFor h calls, calls ++ [(hookFor, h)])
                     [] =
    [("compilation", 0); ("compilation", 1); ("asset", 3)]
  ∧ ("compilation", "hash", 1) ∈ Config.enabled config options
  ∧ ("asset", "_", 3) ∈ Config.enabled config ∅.
Proof.
  intros config options.
  pose proof (iterateConfig_gating config options
                (λ hookFor h calls, calls ++ [(hookFor, h)]) [])
    as (Hrun & Hopt & Hdefault).
  split; [rewrite Hrun; by vm_compute|]. split.
  - apply (Hopt "compilation" [("_", 0); ("hash", 1); ("assets", 2)]
                "hash" 1).
    + left.
    + right; left.
    + discriminate.
    + reflexivity.
  - apply (Hdefault "asset" [("_", 3); ("performance", 4)] 3).
    + right; left.
    + left.
Defined.

(** ** Extraction *)

Section ExtractionFacts.
Import Factory.
Context `{access : DataAccess}.

(** The taps the [statsFactory] callback leaves on the hooks. *)

Lemma tapExtract_foldl (options : Options)
    (l : list (string * string * Extractor)) : ∀ hooks : Hooks,
  extract
    (foldl (λ hooks '(hookFor, _, fn),
              tapExtract hookFor (callExtractor fn options) hooks) hooks l) =
    extract hooks ++
    ((λ '(hookFor, _, fn), (hookFor, callExtractor fn options)) <$> l)
  ∧ getItemFactory
      (foldl (λ hooks '(hookFor, _, fn),
                tapExtract hookFor (callExtractor fn options) hooks) hooks l) =
    getItemFactory hooks.
Proof.
  induction l as [|[[hookFor option] fn] l IH]; intros hooks.
  - split; [by rewrite app_nil_r|done].
  - cbn [foldl fmap list_fmap].
    destruct (IH (tapExtract hookFor (callExtractor fn options) hooks))
      as [Hextract Hfactory].
    split; [|exact Hfactory].
    rewrite Hextract. cbn [extract tapExtract]. by rewrite <- app_assoc.
Qed.

Lemma taps_statsFactoryTap (options : Options) (context : HookContext) :
  extract (statsFactoryTap options context noHooks) =
    tappedExtractors options
  ∧ getItemFactory (statsFactoryTap options context noHooks) =
    tappedFactories options context.
Proof.
  unfold statsFactoryTap, tappedExtractors, tappedFactories.
  rewrite iterateConfig_enabled.
  destruct (tapExtract_foldl options
              (Config.enabled SIMPLE_EXTRACTORS options) noHooks)
    as [Hextract Hfactory].
  change (extract noHooks) with (@nil (string * ExtractTap)) in Hextract.
  change (getItemFactory noHooks) with (@nil (string * FactoryTap))
    in Hfactory.
  rewrite app_nil_l in Hextract.
  set (hooks := foldl _ noHooks (Config.enabled SIMPLE_EXTRACTORS options))
    in *.
  clearbody hooks.
  unfold ITEM_NAMES, MERGER. cbn [foldl].
  destruct (truthy (optionValue options "children")).
  - destruct (optionValue options "children") as [[| |[|]| | |]| | |];
      cbn [extract getItemFactory tapExtract tapGetItemName tapMerge
           tapGetItemFactory];
      rewrite Hextract, Hfactory; done.
  - cbn [extract getItemFactory tapExtract tapGetItemName tapMerge
         tapGetItemFactory].
    rewrite Hextract, Hfactory, app_nil_r. done.
Qed.

Lemma extract_statsFactoryTap (options : Options) (context : HookContext) :
  extract (statsFactoryTap options context noHooks) =
    tappedExtractors options.
Proof. apply taps_statsFactoryTap. Qed.

Lemma getItemFactory_statsFactoryTap (options : Options)
    (context : HookContext) :
  getItemFactory (statsFactoryTap options context noHooks) =
    tappedFactories options context.
Proof. apply taps_statsFactoryTap. Qed.

End ExtractionFacts.

Section ChildrenFacts.
Import Factory.
Context `{access : DataAccess}.

Lemma childFactoryByIndex_spec (optionsChildren : list val)
    (context : HookContext) (comp : Item) (idx : nat) :
  childFactoryByIndex optionsChildren context comp idx =
    (λ childOptions,
       createStatsFactory (createStatsOptions childOptions context)) <$>
    optionsChildren !! idx.
Proof.
  unfold childFactoryByIndex.
  destruct (idx <? length optionsChildren) eqn:Hlt.
  - apply Nat.ltb_lt in Hlt.
    destruct (lookup_lt_is_Some_2 optionsChildren idx Hlt) as [c Hc].
    by rewrite Hc.
  - apply Nat.ltb_ge in Hlt. by rewrite lookup_ge_None_2.
Qed.

Lemma mapM_create_constant (path : string) (data : Data) (ctx : Ctx)
    (report : val) (l : list Compilation) :
  (∀ w1 w2, outcome (create path data ctx w1) =
            outcome (create path data ctx w2)) →
  ∀ (object : Obj) (w w1 : FactoryState),
    create path data ctx w = Return (report, w1) →
    ∃ w',
      mapM (λ _ : Compilation, factoryCreate path data ctx) l object w =
      Return (replicate (length l) report, object, w').
Proof.
  intros Hsame. induction l as [|child l IH]; intros object w w1 Hcreate.
  - by exists w.
  - assert (Hnext : ∃ w2, create path data ctx w1 = Return (report, w2)).
    { specialize (Hsame w w1). rewrite Hcreate in Hsame. simpl in Hsame.
      destruct (create path data ctx w1) as [[r w2]|]; [|done].
      simpl in Hsame. injection Hsame as <-. by exists w2. }
    destruct Hnext as [w2 Hnext].
    destruct (IH object w1 w2 Hnext) as [w' Hrest].
    exists w'. cbn [mapM length replicate].
    unfold mbind at 1, M_bind at 1, factoryCreate at 1. rewrite Hcreate.
    unfold mbind at 1, M_bind at 1. rewrite Hrest. done.
Qed.

Lemma mapM_create_each (path : string) (data : Data) (ctx : Ctx)
    (l : list Compilation) : ∀ (object object' : Obj) (w w' : FactoryState)
    (reports : list val),
  mapM (λ _ : Compilation, factoryCreate path data ctx) l object w =
    Return (reports, object', w') →
  object' = object
  ∧ length reports = length l
  ∧ ∀ report, report ∈ reports →
              ∃ wa wb, create path data ctx wa = Return (report, wb).
Proof.
  induction l as [|child l IH]; intros object object' w w' reports Hrun.
  - injection Hrun as <- <- <-. split; [done|]. split; [done|].
    by intros report ?%elem_of_nil.
  - cbn [mapM] in Hrun.
    unfold mbind at 1, M_bind at 1, factoryCreate at 1 in Hrun.
    destruct (create path data ctx w) as [[first w1]|] eqn:Hfirst; [|done].
    unfold mbind at 1, M_bind at 1 in Hrun.
    destruct (mapM (λ _ : Compilation, factoryCreate path data ctx) l
                   object w1) as [[[rest o2] w2]|] eqn:Hrest; [|done].
    injection Hrun as <- <- <-.
    destruct (IH object o2 w1 w2 rest Hrest) as (-> & Hlen & Heach).
    split; [done|]. split; [simpl; by rewrite Hlen|].
    intros report [->|Hin]%elem_of_cons; [by exists w, w1|by apply Heach].
Qed.

End ChildrenFacts.

(** C6. When [options.children] is an array, the resolver of the child
    item factory returns, for an index below the length of the array, the
    factory made from the options at that index, and returns nothing for
    an index at or beyond the length; the child then falls back to the
    factory it was resolved from and is still reported. *)
Theorem child_factory_by_position `{access : Factory.DataAccess}
    (options : Options) (context : Factory.HookContext)
    (optionsChildren : list val) (self : Factory.StatsFactory)
    (comp : Factory.Item) (idx : nat) :
  optionValue options "children" = VArr optionsChildren →
  let hooks := Factory.statsFactoryTap options context Factory.noHooks in
  let key := "compilation.children[].compilation" in
  Factory.callGetItemFactory hooks key comp idx =
    (λ childOptions,
       Factory.createStatsFactory
         (Factory.createStatsOptions childOptions context)) <$>
    optionsChildren !! idx
  ∧ (idx < length optionsChildren →
     ∃ childOptions,
       optionsChildren !! idx = Some childOptions
       ∧ Factory.callGetItemFactory hooks key comp idx =
         Some (Factory.createStatsFactory
                 (Factory.createStatsOptions childOptions context)))
  ∧ (length optionsChildren ≤ idx →
     Factory.callGetItemFactory hooks key comp idx = None
     ∧ Factory.itemFactory self hooks key comp idx = self).
Proof.
  intros Hchildren hooks key.
  assert (Hcall : Factory.callGetItemFactory hooks key comp idx =
            (λ childOptions,
               Factory.createStatsFactory
                 (Factory.createStatsOptions childOptions context)) <$>
            optionsChildren !! idx).
  { unfold Factory.callGetItemFactory, hooks.
    rewrite getItemFactory_statsFactoryTap. unfold Factory.tappedFactories.
    rewrite Hchildren. cbn [truthy foldr]. unfold key.
    rewrite String.eqb_refl, childFactoryByIndex_spec.
    by destruct (optionsChildren !! idx). }
  split; [exact Hcall|]. split.
  - intros Hlt.
    destruct (lookup_lt_is_Some_2 optionsChildren idx Hlt) as [c Hc].
    exists c. split; [exact Hc|]. by rewrite Hcall, Hc.
  - intros Hge. unfold Factory.itemFactory.
    rewrite Hcall, lookup_ge_None_2 by done. done.
Qed.

(** C9. The [chunkGroups] extractor, tapped iff the [chunkGroups] option
    is truthy, creates the reports of the named chunk groups at the type
    path [`${type}.entrypoints`] and stores them in the field
    [entrypoints] of the output object, leaving every other field, a field
    [chunkGroups] included, as it was; run after the [entrypoints]
    extractor it replaces what that one stored. *)
Theorem chunkGroups_stores_entrypoints `{access : Factory.DataAccess}
    (options : Options) (compilation : Factory.Compilation)
    (ctx : Factory.Ctx) (object : Obj) (w : Factory.FactoryState) :
  let groups :=
    Factory.DArray (map (λ '(key, value), Factory.INamedGroup key value)
                        (Factory.namedChunkGroups compilation)) in
  let path := Factory.type ctx +:+ ".entrypoints" in
  (("compilation", "chunkGroups",
    Factory.ForCompilation Factory.compilation_chunkGroups)
     ∈ Config.enabled Factory.SIMPLE_EXTRACTORS options
   ↔ truthy (optionValue options "chunkGroups") = true)
  ∧ Factory.compilation_chunkGroups compilation ctx options object w =
      match Factory.create path groups ctx w with
      | Return (created, w') =>
          Return (tt, <["entrypoints" := created]> object, w')
      | ThrowTypeError => ThrowTypeError
      end
  ∧ (∀ object' w',
       Factory.compilation_chunkGroups compilation ctx options object w =
         Return (tt, object', w') →
       Factory.create path groups ctx w =
         Return (default undefined (object' !! "entrypoints"), w')
       ∧ ∀ key, key ≠ "entrypoints" → object' !! key = object !! key)
  ∧ (∀ object1 w1 created w2,
       Factory.compilation_entrypoints compilation ctx options object w =
         Return (tt, object1, w1) →
       Factory.create path groups ctx w1 = Return (created, w2) →
       (Factory.compilation_entrypoints compilation ctx options;;
        Factory.compilation_chunkGroups compilation ctx options) object w =
         Return (tt, <["entrypoints" := created]> object, w2)).
Proof.
  intros groups path.
  assert (Hrun :
    Factory.compilation_chunkGroups compilation ctx options object w =
      match Factory.create path groups ctx w with
      | Return (created, w') =>
          Return (tt, <["entrypoints" := created]> object, w')
      | ThrowTypeError => ThrowTypeError
      end).
  { unfold Factory.compilation_chunkGroups, mbind, Factory.M_bind,
      Factory.factoryCreate, Factory.assign.
    fold groups. fold path.
    by destruct (Factory.create path groups ctx w) as [[created w']|]. }
  split; [|split; [exact Hrun|split]].
  - rewrite elem_of_enabled. split.
    + intros [_ [?|?]]; done.
    + intros Ht. split; [|by right].
      eexists. split; [left|]. do 11 right. left.
  - intros object' w'. rewrite Hrun.
    destruct (Factory.create path groups ctx w) as [[created w0]|] eqn:Hc;
      [|done].
    intros [= <- <-]. split.
    + by rewrite lookup_insert_eq.
    + intros key Hne. by rewrite lookup_insert_ne.
  - intros object1 w1 created w2 Hentry Hcreate. clear Hrun.
    unfold mbind, Factory.M_bind. rewrite Hentry.
    unfold Factory.compilation_entrypoints, mbind, Factory.M_bind,
      Factory.factoryCreate, Factory.assign in Hentry.
    destruct (Factory.create _ _ ctx w) as [[e we]|]; [|done].
    injection Hentry as <- <-.
    unfold Factory.compilation_chunkGroups, mbind, Factory.M_bind,
      Factory.factoryCreate, Factory.assign.
    fold groups. fold path. rewrite Hcreate.
    by rewrite insert_insert_eq.
Qed.

(** C10. The extractor tapped for ["compilation"] iff [options.children]
    is truthy sets the field [children] to an array with one entry per
    child, and each entry is what [create] returns for the whole array of
    children at the type path [`${type}.children`], not for the child at
    that index: with [create] reporting [report] for that array, the field
    holds as many copies of [report] as there are children. *)
Theorem children_each_report_whole_list `{access : Factory.DataAccess}
    (options : Options) (context : Factory.HookContext)
    (comp : Factory.Compilation) (ctx : Factory.Ctx) (object : Obj)
    (w w1 : Factory.FactoryState) (report : val) :
  let whole :=
    Factory.DArray (Factory.ICompilation <$> Factory.children comp) in
  let path := Factory.type ctx +:+ ".children" in
  Factory.extract
    (Factory.statsFactoryTap options context Factory.noHooks) =
    ((λ '(hookFor, _, fn), (hookFor, Factory.callExtractor fn options)) <$>
     Config.enabled Factory.SIMPLE_EXTRACTORS options) ++
    (if truthy (optionValue options "children")
     then [("compilation", Factory.extractChildren)] else [])
  ∧ (∀ object' w',
       Factory.extractChildren (Factory.ICompilation comp) ctx object w =
         Return (tt, object', w') →
       ∃ reports,
         object' = <["children" := VArr reports]> object
         ∧ length reports = length (Factory.children comp)
         ∧ ∀ entry, entry ∈ reports →
                    ∃ wa wb, Factory.create path whole ctx wa =
                             Return (entry, wb))
  ∧ ((∀ w1 w2, Factory.outcome (Factory.create path whole ctx w1) =
               Factory.outcome (Factory.create path whole ctx w2)) →
     Factory.create path whole ctx w = Return (report, w1) →
     ∃ w',
       Factory.extractChildren (Factory.ICompilation comp) ctx object w =
       Return (tt,
               <["children" :=
                   VArr (replicate (length (Factory.children comp)) report)]>
                 object,
               w')).
Proof.
  intros whole path. split; [apply extract_statsFactoryTap|]. split.
  - intros object' w' Hrun. unfold Factory.extractChildren in Hrun.
    fold whole in Hrun. fold path in Hrun.
    unfold mbind at 1, Factory.M_bind at 1 in Hrun.
    destruct (mapM (λ _ : Factory.Compilation,
                      Factory.factoryCreate path whole ctx)
                   (Factory.children comp) object w)
      as [[[reports o1] wm]|] eqn:Hmap; [|done].
    destruct (mapM_create_each path whole ctx (Factory.children comp)
                object o1 w wm reports Hmap) as (-> & Hlen & Heach).
    injection Hrun as <- <-. by exists reports.
  - intros Hsame Hcreate.
    destruct (mapM_create_constant path whole ctx report
                (Factory.children comp) Hsame object w w1 Hcreate)
      as [w' Hmap].
    exists w'. unfold Factory.extractChildren.
    fold whole. fold path.
    unfold mbind at 1, Factory.M_bind at 1. rewrite Hmap. done.
Qed.

(** ** The theorems at concrete inputs *)

Lemma createOrder_preferred_then_rest_witness :
  "kind!" ∈ ["kind!"; "name"; "assets"]
  ∧ endsWith "kind!" "!" = true
  ∧ "kind!" ∈ Order.createOrder ["assets"; "extra"; "name"]
                                ["kind!"; "name"; "assets"]
  ∧ "extra" ∈ Order.createOrder ["assets"; "extra"; "name"]
                                ["kind!"; "name"; "assets"].
Proof.
  assert (Hin : "kind!" ∈ ["kind!"; "name"; "assets"]) by left.
  assert (Hbang : endsWith "kind!" "!" = true) by reflexivity.
  assert (Hpresent : "extra" ∈ ["assets"; "extra"; "name"]) by (right; left).
  destruct (createOrder_preferred_then_rest
              ["assets"; "extra"; "name"] ["kind!"; "name"; "assets"])
    as (_ & Hreserved & Hkept & _).
  split; [exact Hin|]. split; [exact Hbang|]. split.
  - exact (Hreserved "kind!" Hin Hbang).
  - exact (Hkept "extra" Hpresent).
Defined.

Section ExampleRuns.
#[local] Existing Instance exampleCarriers.
#[local] Existing Instance exampleAccess.
Import Factory.

Lemma child_factory_by_position_witness :
  optionValue exampleOptions "children" = VArr [VObj ∅; VPrim (PBool false)]
  ∧ callGetItemFactory (statsFactoryTap exampleOptions exampleHookContext noHooks)
      "compilation.children[].compilation" exampleRoot 1 =
    Some (VPrim (PBool false))
  ∧ callGetItemFactory (statsFactoryTap exampleOptions exampleHookContext noHooks)
      "compilation.children[].compilation" exampleRoot 2 = None
  ∧ itemFactory (VPrim (PStr "parent"))
      (statsFactoryTap exampleOptions exampleHookContext noHooks)
      "compilation.children[].compilation" exampleRoot 2 =
    VPrim (PStr "parent").
Proof.
  assert (Hchildren : optionValue exampleOptions "children" =
                      VArr [VObj ∅; VPrim (PBool false)]) by reflexivity.
  split; [exact Hchildren|].
  destruct (child_factory_by_position (access := exampleAccess) exampleOptions exampleHookContext
              [VObj ∅; VPrim (PBool false)] (VPrim (PStr "parent"))
              exampleRoot 1 Hchildren) as (_ & Hbelow & _).
  destruct (child_factory_by_position (access := exampleAccess) exampleOptions exampleHookContext
              [VObj ∅; VPrim (PBool false)] (VPrim (PStr "parent"))
              exampleRoot 2 Hchildren) as (_ & _ & Hbeyond).
  split.
  - destruct Hbelow as (childOptions & Hlookup & Hfactory); [simpl; lia|].
    injection Hlookup as <-. exact Hfactory.
  - apply Hbeyond. simpl. lia.
Defined.

Lemma chunkGroups_stores_entrypoints_witness :
  truthy (optionValue exampleOptions "chunkGroups") = true
  ∧ ("compilation", "chunkGroups", ForCompilation compilation_chunkGroups)
      ∈ Config.enabled SIMPLE_EXTRACTORS exampleOptions
  ∧ (compilation_entrypoints 0 exampleContext exampleOptions;;
     compilation_chunkGroups 0 exampleContext exampleOptions) ∅ 0 =
    Return (tt, <["entrypoints" := VArr [VObj ∅; VObj ∅]]> ∅, 2).
Proof.
  assert (Hopt : truthy (optionValue exampleOptions "chunkGroups") = true)
    by reflexivity.
  destruct (chunkGroups_stores_entrypoints (access := exampleAccess) exampleOptions (0 : @Compilation exampleCarriers) exampleContext
              ∅ (0 : @FactoryState exampleCarriers)) as (Henabled & _ & _ & Hover).
  split; [exact Hopt|]. split; [by apply Henabled|].
  apply (Hover (<["entrypoints" := VArr [VObj ∅]]> ∅) 1); reflexivity.
Defined.

Lemma children_each_report_whole_list_witness :
  create "compilation.children" (DArray (ICompilation <$> children 0))
         exampleContext 0 = Return (VArr [VObj ∅; VObj ∅], 1)
  ∧ ∃ w',
      extractChildren exampleRoot exampleContext ∅ 0 =
      Return (tt,
              <["children" := VArr [VArr [VObj ∅; VObj ∅];
                                    VArr [VObj ∅; VObj ∅]]]> ∅,
              w').
Proof.
  assert (Hcreate :
    create "compilation.children" (DArray (ICompilation <$> children 0))
           exampleContext 0 = Return (VArr [VObj ∅; VObj ∅], 1))
    by reflexivity.
  split; [exact Hcreate|].
  destruct (children_each_report_whole_list (access := exampleAccess) exampleOptions exampleHookContext (0 : @Compilation exampleCarriers)
              exampleContext ∅ (0 : @FactoryState exampleCarriers)
              (1 : @FactoryState exampleCarriers) (VArr [VObj ∅; VObj ∅])) as (_ & _ & Hrepeat).
  apply Hrepeat; [|exact Hcreate].
  intros w1 w2. reflexivity.
Defined.

End ExampleRuns.

(** * Further properties *)

(** ** Field ordering *)

Section OrderMore.
Import Order.

Lemma elem_of_keptPreferred (present preferred : list string) (e : string) :
  e ∈ keptPreferred present preferred ↔
    e ∈ preferred ∧ (endsWith e "!" = true ∨ e ∈ present).
Proof. unfold keptPreferred. rewrite list_elem_of_filter. tauto. Qed.

Lemma elem_of_createOrder (present preferred : list string) (e : string) :
  e ∈ createOrder present preferred ↔
    e ∈ present ∨ (e ∈ preferred ∧ endsWith e "!" = true).
Proof.
  rewrite createOrder_filters, elem_of_app. unfold remaining.
  rewrite list_elem_of_filter, elem_of_keptPreferred. split.
  - intros [[Hp [Hbang|Hin]]|[_ Hin]]; [right|left|left]; done.
  - intros [Hin|[Hp Hbang]]; [|left; split; [done|by left]].
    destruct (decide (e ∈ keptPreferred present preferred)) as [Hk|Hk].
    + left. by apply elem_of_keptPreferred.
    + right. split; [|done]. intros Hk'. apply Hk.
      by apply elem_of_keptPreferred.
Qed.

Lemma createOrder_NoDup (present preferred : list string) :
  NoDup present → NoDup preferred → NoDup (createOrder present preferred).
Proof.
  intros Hpresent Hpreferred. rewrite createOrder_filters.
  apply NoDup_app. split; [by apply NoDup_filter|]. split.
  - intros e Hk Hr. unfold remaining in Hr.
    apply list_elem_of_filter in Hr as [Hnot _]. done.
  - by apply NoDup_filter.
Qed.

Lemma filter_none {A : Type} (P : A → Prop) `{∀ x, Decision (P x)}
    (l : list A) :
  (∀ x, x ∈ l → ¬ P x) → filter P l = [].
Proof.
  induction l as [|x l IH]; intros Hall; [done|].
  rewrite filter_cons_False by (apply Hall; left).
  apply IH. intros y Hy. apply Hall. by right.
Qed.

Lemma filter_all {A : Type} (P : A → Prop) `{∀ x, Decision (P x)}
    (l : list A) :
  (∀ x, x ∈ l → P x) → filter P l = l.
Proof.
  induction l as [|x l IH]; intros Hall; [done|].
  rewrite filter_cons_True by (apply Hall; left).
  f_equal. apply IH. intros y Hy. apply Hall. by right.
Qed.

End OrderMore.

(** X1. Ordering is idempotent: ordering an already ordered list of
    fields by the same preferred order changes nothing. *)
Theorem createOrder_idempotent (present preferred : list string) :
  Order.createOrder (Order.createOrder present preferred) preferred =
  Order.createOrder present preferred.
Proof.
  rewrite (createOrder_filters present preferred).
  set (K := Order.keptPreferred present preferred).
  set (R := Order.remaining present K).
  rewrite createOrder_filters.
  assert (HK : Order.keptPreferred (K ++ R) preferred = K).
  { unfold K at 2, Order.keptPreferred. apply list_filter_iff. intros e.
    rewrite elem_of_app. unfold K, R, Order.remaining.
    rewrite list_elem_of_filter, elem_of_keptPreferred. split.
    - intros [Hbang|[[_ Hor]|[_ Hin]]]; auto.
    - intros [Hbang|Hin]; [by left|right].
      destruct (decide (e ∈ Order.keptPreferred present preferred)) as [Hk|Hk].
      + left. by apply elem_of_keptPreferred.
      + right. done. }
  rewrite HK. f_equal. unfold Order.remaining at 1.
  rewrite filter_app, filter_none, filter_all; [done| |].
  - intros e He. unfold R, Order.remaining in He.
    by apply list_elem_of_filter in He as [Hnot _].
  - intros e He Hnot. done.
Qed.

(** X2. The ordered list holds exactly the present fields and the
    reserved entries of the preferred order, and it repeats nothing when
    neither input does. *)
Theorem createOrder_members (present preferred : list string) :
  (∀ e, e ∈ Order.createOrder present preferred ↔
        e ∈ present ∨ (e ∈ preferred ∧ endsWith e "!" = true))
  ∧ (NoDup present → NoDup preferred →
     NoDup (Order.createOrder present preferred)).
Proof.
  split; [apply elem_of_createOrder|apply createOrder_NoDup].
Qed.

Lemma createOrder_members_witness :
  NoDup ["b"; "a"; "z"] ∧ NoDup ["a"; "k!"; "b"]
  ∧ NoDup (Order.createOrder ["b"; "a"; "z"] ["a"; "k!"; "b"]).
Proof.
  assert (H1 : NoDup ["b"; "a"; "z"]) by (apply (bool_decide_unpack _); by vm_compute).
  assert (H2 : NoDup ["a"; "k!"; "b"]) by (apply (bool_decide_unpack _); by vm_compute).
  split; [exact H1|]. split; [exact H2|].
  exact (proj2 (createOrder_members ["b"; "a"; "z"] ["a"; "k!"; "b"]) H1 H2).
Defined.

(** X3. When the preferred order has no reserved entry, ordering only
    rearranges: the result is a permutation of the present fields. *)
Theorem createOrder_permutation (present preferred : list string) :
  NoDup present → NoDup preferred →
  (∀ e, e ∈ preferred → endsWith e "!" = false) →
  Order.createOrder present preferred ≡ₚ present.
Proof.
  intros Hpresent Hpreferred Hplain.
  apply NoDup_Permutation; [by apply createOrder_NoDup|done|].
  intros e. rewrite elem_of_createOrder. split; [|by left].
  intros [Hin|[Hp Hbang]]; [done|].
  rewrite (Hplain e Hp) in Hbang. done.
Qed.

Lemma createOrder_permutation_witness :
  NoDup ["b"; "a"; "z"] ∧ NoDup ["a"; "b"]
  ∧ (∀ e, e ∈ ["a"; "b"] → endsWith e "!" = false)
  ∧ Order.createOrder ["b"; "a"; "z"] ["a"; "b"] ≡ₚ ["b"; "a"; "z"].
Proof.
  assert (H1 : NoDup ["b"; "a"; "z"]) by (apply (bool_decide_unpack _); by vm_compute).
  assert (H2 : NoDup ["a"; "b"]) by (apply (bool_decide_unpack _); by vm_compute).
  assert (H3 : ∀ e, e ∈ ["a"; "b"] → endsWith e "!" = false).
  { intros e He. repeat (apply elem_of_cons in He as [->|He]; [reflexivity|]).
    by apply elem_of_nil in He. }
  split; [exact H1|]. split; [exact H2|]. split; [exact H3|].
  exact (createOrder_permutation ["b"; "a"; "z"] ["a"; "b"] H1 H2 H3).
Defined.

(** ** Table layout *)

Section TableMore.
Import Table TableLayout.

Lemma lineOf_pieces array align sep cols row :
  lineOf array align sep cols row =
    join "" (map (cellPiece array align sep cols row) (seq 0 cols)).
Proof. reflexivity. Qed.

Lemma join_empty_app (a b : list string) :
  join "" (a ++ b) = join "" a +:+ join "" b.
Proof.
  induction a as [|x a IH]; [done|].
  cbn [app]. rewrite !join_empty_cons, IH, append_assoc. done.
Qed.

Lemma length_join_empty (l : list string) :
  String.length (join "" l) = sum_list (map String.length l).
Proof.
  induction l as [|x l IH]; [done|].
  rewrite join_empty_cons, length_append, IH. done.
Qed.

Lemma string_length_zero (s : string) : String.length s = 0 → s = "".
Proof. by destruct s. Qed.

Lemma cellText_delete (row : list string) (c j : nat) :
  cellText (delete c row) j =
    cellText row (if decide (j < c) then j else S j).
Proof.
  unfold cellText. case_decide.
  - by rewrite list_lookup_delete_lt.
  - by rewrite list_lookup_delete_ge by lia.
Qed.

Lemma alignIs_delete (align : list string) (c j : nat) (a : string) :
  alignIs (delete c align) j a =
    alignIs align (if decide (j < c) then j else S j) a.
Proof.
  unfold alignIs. case_decide.
  - by rewrite list_lookup_delete_lt.
  - by rewrite list_lookup_delete_ge by lia.
Qed.

Lemma colWidth_delete (array : list (list string)) (c j : nat) :
  colWidth (delete c <$> array) j =
    colWidth array (if decide (j < c) then j else S j).
Proof.
  unfold colWidth. induction array as [|row array IH]; [done|].
  cbn [fmap list_fmap map foldr]. rewrite cellText_delete.
  f_equal. exact IH.
Qed.

(** A piece of the table without column [c] is the piece of the column it
    came from. *)
Lemma cellPiece_delete array align sep cols row c j :
  c + 1 < cols → j < cols - 1 →
  cellPiece (delete c <$> array) (delete c align) sep (cols - 1)
            (delete c row) j =
  cellPiece array align sep cols row (if decide (j < c) then j else S j).
Proof.
  intros Hc Hj. unfold cellPiece, bareCell, paddedCell, gapAfter.
  rewrite !alignIs_delete, cellText_delete, colWidth_delete.
  case_decide as Hlt.
  - replace (j =? cols - 1 - 1) with false by (symmetry; apply Nat.eqb_neq; lia).
    replace (j =? cols - 1) with false by (symmetry; apply Nat.eqb_neq; lia).
    replace (j + 1 <? cols - 1) with true by (symmetry; apply Nat.ltb_lt; lia).
    replace (j + 1 <? cols) with true by (symmetry; apply Nat.ltb_lt; lia).
    done.
  - destruct (decide (j = cols - 1 - 1)) as [->|Hne].
    + replace (S (cols - 1 - 1)) with (cols - 1) by lia.
      rewrite !Nat.eqb_refl.
      replace (cols - 1 - 1 + 1 <? cols - 1) with false
        by (symmetry; apply Nat.ltb_ge; lia).
      replace (cols - 1 + 1 <? cols) with false
        by (symmetry; apply Nat.ltb_ge; lia).
      done.
    + replace (j =? cols - 1 - 1) with false
        by (symmetry; apply Nat.eqb_neq; lia).
      replace (S j =? cols - 1) with false
        by (symmetry; apply Nat.eqb_neq; lia).
      replace (j + 1 <? cols - 1) with true
        by (symmetry; apply Nat.ltb_lt; lia).
      replace (S j + 1 <? cols) with true
        by (symmetry; apply Nat.ltb_lt; lia).
      done.
Qed.

(** A column of empty cells that is not the last contributes nothing. *)
Lemma cellPiece_empty array align sep cols row c :
  c + 1 < cols → row ∈ array →
  (∀ r, r ∈ array → r !! c = Some "") →
  cellPiece array align sep cols row c = "".
Proof.
  intros Hc Hrow Hempty.
  assert (Hwidth : colWidth array c = 0).
  { unfold colWidth. clear Hrow.
    induction array as [|r array IH]; [done|].
    cbn [map foldr]. unfold cellText at 1.
    rewrite (Hempty r) by left. simpl.
    apply IH. intros r' Hr'. apply Hempty. by right. }
  unfold cellPiece, paddedCell, gapAfter, cellText.
  rewrite (Hempty row Hrow), Hwidth.
  replace (c =? cols - 1) with false by (symmetry; apply Nat.eqb_neq; lia).
  rewrite andb_false_r. simpl.
  by destruct (alignIs align c "l"), (alignIs align c "r").
Qed.

Lemma lineOf_delete array align sep cols row c :
  c + 1 < cols → row ∈ array →
  (∀ r, r ∈ array → r !! c = Some "") →
  lineOf (delete c <$> array) (delete c align) sep (cols - 1) (delete c row) =
  lineOf array align sep cols row.
Proof.
  intros Hc Hrow Hempty. rewrite !lineOf_pieces.
  replace (seq 0 (cols - 1)) with (seq 0 c ++ seq c (cols - 1 - c))
    by (rewrite <- seq_app; f_equal; lia).
  replace (seq 0 cols) with (seq 0 c ++ [c] ++ seq (S c) (cols - 1 - c)).
  2:{ change [c] with (seq c 1). replace (S c) with (c + 1) by lia.
      rewrite <- (seq_app 1), <- seq_app. f_equal. lia. }
  rewrite !map_app, !join_empty_app. f_equal.
  - f_equal. apply map_ext_in. intros j Hj%in_seq.
    rewrite cellPiece_delete by lia. by rewrite decide_True by lia.
  - cbn [map]. rewrite join_empty_cons.
    rewrite (cellPiece_empty array align sep cols row c Hc Hrow Hempty).
    rewrite append_empty_l. f_equal.
    rewrite <- fmap_S_seq. rewrite <- list_fmap_compose.
    apply map_ext_in. intros j Hj%in_seq. cbn.
    rewrite cellPiece_delete by lia. by rewrite decide_False by lia.
Qed.

(** The start of a column, as a helper for the theorems on alignment. *)
Lemma columns_start_alike (first : list string) (rest : list (list string))
    (align : list string) (splitter : option string) (c : nat)
    (row : list string) :
  c < length first →
  (∀ j, j < c → Table.alignIs align j "l" || Table.alignIs align j "r" = true) →
  row ∈ first :: rest →
  String.length
    (foldl (Table.lineStep row align splitter
              (Table.measure (first :: rest) (length first)) (length first))
           "" (seq 0 c)) =
  TableLayout.columnStart (first :: rest) (Table.splitterOr splitter) (length first) c.
Proof.
  intros Hc Halign Hrow.
  rewrite lineStep_foldl by (intros i Hi%elem_of_seq; lia).
  rewrite append_empty_l, length_join_empty, map_map.
  unfold TableLayout.columnStart. f_equal.
  apply map_ext_in. intros j Hj%in_seq.
  replace (j =? length first - 1) with false
    by (symmetry; apply Nat.eqb_neq; lia).
  rewrite length_append, paddedCell_width; [done|done|apply Halign; lia].
Qed.

End TableMore.

(** X4. Columns line up: when the columns before column [c] are all
    left- or right-aligned, the text rendered for them has the same
    length in every row, so column [c] starts at the same offset in every
    line of the table. *)
Theorem table_columns_aligned (first : list string)
    (rest : list (list string)) (align : list string)
    (splitter : option string) (c : nat) (row : list string) :
  c < length first →
  (∀ j, j < c →
        Table.alignIs align j "l" || Table.alignIs align j "r" = true) →
  row ∈ first :: rest →
  String.length
    (foldl (Table.lineStep row align splitter
              (Table.measure (first :: rest) (length first)) (length first))
           "" (seq 0 c)) =
  TableLayout.columnStart (first :: rest) (Table.splitterOr splitter)
                          (length first) c.
Proof.
  intros Hc Halign Hrow. by apply columns_start_alike.
Qed.

Lemma table_columns_aligned_witness :
  1 < length ["a"; "bb"]
  ∧ String.length
      (foldl (Table.lineStep ["a"; "bb"] exampleAlign None
                (Table.measure exampleRows 2) 2) "" (seq 0 1)) = 5
  ∧ String.length
      (foldl (Table.lineStep ["ccc"; "d"] exampleAlign None
                (Table.measure exampleRows 2) 2) "" (seq 0 1)) = 5.
Proof.
  assert (Hc : 1 < length ["a"; "bb"]) by (simpl; lia).
  assert (Hal : ∀ j, j < 1 →
            Table.alignIs exampleAlign j "l" ||
            Table.alignIs exampleAlign j "r" = true).
  { intros j Hj. assert (j = 0) as -> by lia. reflexivity. }
  split; [exact Hc|]. split.
  - etrans; [|reflexivity].
    apply (table_columns_aligned ["a"; "bb"] [["ccc"; "d"]] exampleAlign
             None 1 ["a"; "bb"] Hc Hal). left.
  - etrans; [|reflexivity].
    apply (table_columns_aligned ["a"; "bb"] [["ccc"; "d"]] exampleAlign
             None 1 ["ccc"; "d"] Hc Hal). right; left.
Defined.

(** X5. A column whose cells are all empty, and which is not the last
    column, is invisible: the table is the one rendered without that
    column (and without its alignment). *)
Theorem table_empty_column_hidden (first : list string)
    (rest : list (list string)) (align : list string)
    (splitter : option string) (c : nat) :
  c + 1 < length first →
  (∀ row, row ∈ first :: rest → row !! c = Some "") →
  Table.table (first :: rest) align splitter =
  Table.table (delete c <$> first :: rest) (delete c align) splitter.
Proof.
  intros Hc Hempty.
  cbn [fmap list_fmap]. rewrite !table_lines. f_equal. f_equal.
  rewrite length_delete by (apply lookup_lt_is_Some; lia).
  change (delete c first :: (delete c <$> rest))
    with (delete c <$> first :: rest).
  rewrite <- list_fmap_compose. apply map_ext_in.
  intros row Hrow%list_elem_of_In. cbn.
  symmetry.
  exact (lineOf_delete (first :: rest) align (Table.splitterOr splitter)
           (length first) row c Hc Hrow Hempty).
Qed.

Lemma table_empty_column_hidden_witness :
  let rows := [["Asset"; ""; "Size"]; ["main.js"; ""; "120 bytes"]] in
  1 + 1 < length ["Asset"; ""; "Size"]
  ∧ Table.table rows (Table.chars "rlr") None =
    Table.table [["Asset"; "Size"]; ["main.js"; "120 bytes"]]
                (Table.chars "rr") None.
Proof.
  intros rows.
  assert (Hc : 1 + 1 < length ["Asset"; ""; "Size"]) by (simpl; lia).
  split; [exact Hc|].
  apply (table_empty_column_hidden ["Asset"; ""; "Size"]
           [["main.js"; ""; "120 bytes"]] (Table.chars "rlr") None 1 Hc).
  intros row Hrow.
  repeat (apply elem_of_cons in Hrow as [->|Hrow]; [reflexivity|]).
  by apply elem_of_nil in Hrow.
Defined.

(** ** The module element joiner, further *)

Section JoinerMore.
Import Joiner.

(** Without [name] and [identifier] elements nothing is dropped. *)
Lemma filterItems_plain (module : ModuleNode) (items : list Printed) :
  Forall (λ it, element it ≠ "name" ∧ element it ≠ "identifier") items →
  ∀ st, filterItems module st items = items.
Proof.
  induction 1 as [|it items [Hn Hi] _ IH]; intros st; [done|].
  cbn [filterItems]. unfold keep.
  destruct (String.eqb_spec (element it) "id") as [Hid|Hid].
  - by rewrite IH.
  - destruct (String.eqb_spec (element it) "name"); [done|].
    destruct (String.eqb_spec (element it) "identifier"); [done|].
    by rewrite IH.
Qed.

(** Elements other than [name] and [identifier] are never dropped. *)
Lemma filterItems_others (module : ModuleNode) (items : list Printed) :
  ∀ st,
    filter (λ it, element it ≠ "name" ∧ element it ≠ "identifier")
           (filterItems module st items) =
    filter (λ it, element it ≠ "name" ∧ element it ≠ "identifier") items.
Proof.
  induction items as [|it items IH]; intros st; [done|].
  cbn [filterItems]. unfold keep.
  destruct (String.eqb_spec (element it) "id") as [Hid|Hid].
  - rewrite !filter_cons_True by (rewrite Hid; split; discriminate).
    by rewrite IH.
  - destruct (String.eqb_spec (element it) "name") as [Hn|Hn].
    + rewrite (filter_cons_False _ it items) by (intros [? _]; done).
      destruct (l_hasName st); [apply IH|].
      destruct (truthyStr (content it));
        rewrite filter_cons_False by (intros [? _]; done); apply IH.
    + destruct (String.eqb_spec (element it) "identifier") as [Hi|Hi].
      * rewrite (filter_cons_False _ it items) by (intros [_ ?]; done).
        destruct (l_hasName st); [apply IH|].
        destruct (truthyStr (content it));
          rewrite filter_cons_False by (intros [_ ?]; done); apply IH.
      * rewrite !filter_cons_True by done. by rewrite IH.
Qed.

Lemma filterItems_sublist (module : ModuleNode) (items : list Printed) :
  ∀ st, sublist (filterItems module st items) items.
Proof.
  induction items as [|it items IH]; intros st; [done|].
  cbn [filterItems]. destruct (keep module st it) as [st' [|]].
  - by apply sublist_skip.
  - by apply sublist_cons.
Qed.

(** The kept elements that name the module: a [name] or [identifier]
    element with a non-empty content. *)
Lemma filterItems_named_once (module : ModuleNode) (items : list Printed) :
  ∀ st,
    length (filter (λ it, (element it = "name" ∨ element it = "identifier")
                          ∧ truthyStr (content it) = true)
                   (filterItems module st items))
    ≤ if l_hasName st then 0 else 1.
Proof.
  induction items as [|it items IH]; intros st.
  { simpl. destruct (l_hasName st); lia. }
  cbn [filterItems]. unfold keep.
  destruct (String.eqb_spec (element it) "id") as [Hid|Hid].
  - rewrite filter_cons_False
      by (rewrite Hid; intros [[?|?] _]; discriminate).
    destruct (strictEq (id module) (name module)).
    + etrans; [apply IH|]. cbn. destruct (l_hasName st); lia.
    + etrans; [apply IH|]. cbn. destruct (l_hasName st); lia.
  - assert (Hstep : ∀ (Hel : element it = "name" ∨ element it = "identifier"),
      length (filter (λ it, (element it = "name" ∨ element it = "identifier")
                            ∧ truthyStr (content it) = true)
                (if l_hasName st
                 then filterItems module st items
                 else if truthyStr (content it)
                      then it :: filterItems module
                                   {| l_id := l_id st; l_hasName := true |}
                                   items
                      else it :: filterItems module st items))
      ≤ if l_hasName st then 0 else 1).
    { intros Hel. destruct (l_hasName st) eqn:Hst.
      - etrans; [apply IH|]. by rewrite Hst.
      - destruct (truthyStr (content it)) eqn:Hc.
        + rewrite filter_cons_True by done. cbn [length].
          specialize (IH {| l_id := l_id st; l_hasName := true |}).
          cbn in IH. lia.
        + rewrite filter_cons_False by (intros [_ ?]; congruence).
          etrans; [apply IH|]. by rewrite Hst. }
    destruct (String.eqb_spec (element it) "name") as [Hn|Hn].
    + specialize (Hstep (or_introl Hn)).
      destruct (l_hasName st); [exact Hstep|].
      by destruct (truthyStr (content it)).
    + destruct (String.eqb_spec (element it) "identifier") as [Hi|Hi].
      * specialize (Hstep (or_intror Hi)).
        destruct (l_hasName st); [exact Hstep|].
        by destruct (truthyStr (content it)).
      * rewrite filter_cons_False by (intros [[?|?] _]; done).
        apply IH.
Qed.

Lemma filter_ext_elem {A : Type} (P Q : A → Prop)
    `{∀ x, Decision (P x)} `{∀ x, Decision (Q x)} (l : list A) :
  (∀ x, x ∈ l → (P x ↔ Q x)) → filter P l = filter Q l.
Proof.
  induction l as [|x l IH]; intros Hext; [done|].
  assert (Hrest : filter P l = filter Q l).
  { apply IH. intros y Hy. apply Hext. by right. }
  destruct (decide (P x)) as [HP|HP].
  - rewrite !filter_cons_True; [by rewrite Hrest| |done].
    apply Hext; [left|done].
  - rewrite !filter_cons_False; [done| |done].
    intros HQ. apply HP. apply Hext; [left|done].
Qed.

(** The preferred order of a module puts [id], [name] and [identifier]
    first, in this order, and nowhere else. *)
Lemma createOrder_module_head (keys : list string) :
  ∃ rest,
    Order.createOrder keys PREFERED_ORDERS_module =
      filter (λ e, e ∈ keys) ["id"; "name"; "identifier"] ++ rest
    ∧ Forall (λ e, e ≠ "id" ∧ e ≠ "name" ∧ e ≠ "identifier") rest.
Proof.
  rewrite createOrder_filters.
  set (tail := [ "sizes"; "chunks"; "depth"; "cacheable"; "orphan";
                 "runtime"; "optional"; "built"; "assets"; "failed";
                 "warnings"; "errors"; "providedExports"; "usedExports";
                 "optimizationBailout"; "reasons"; "profile"; "modules" ]).
  assert (Hsplit : Order.keptPreferred keys PREFERED_ORDERS_module =
            filter (λ e, e ∈ keys) ["id"; "name"; "identifier"] ++
            Order.keptPreferred keys tail).
  { assert (Hpref : PREFERED_ORDERS_module =
                      ["id"; "name"; "identifier"] ++ tail) by reflexivity.
    rewrite Hpref. unfold Order.keptPreferred.
    rewrite filter_app. f_equal.
    apply filter_ext_elem. intros e He.
    assert (Hbang : endsWith e "!" = false).
    { repeat (apply elem_of_cons in He as [->|He]; [reflexivity|]).
      by apply elem_of_nil in He. }
    rewrite Hbang. split; [by intros [?|?]|by right]. }
  rewrite Hsplit, <- app_assoc. eexists. split; [reflexivity|].
  apply Forall_app. split.
  - apply Forall_forall. intros e He.
    apply elem_of_keptPreferred in He as [He _].
    repeat (apply elem_of_cons in He as [->|He];
            [repeat split; discriminate|]).
    by apply elem_of_nil in He.
  - apply Forall_forall. intros e He. unfold Order.remaining in He.
    apply list_elem_of_filter in He as [Hnot Hin].
    repeat split; intros ->; apply Hnot; apply elem_of_app; left;
      apply list_elem_of_filter; (split; [done|]).
    + left.
    + right; left.
    + right; right; left.
Qed.

End JoinerMore.

Section JoinerCases.
Import Joiner.

Lemma printedElements_split (keys : list string)
    (print : string → option string) :
  ∃ rest,
    printedElements keys print =
      map (λ e, {| element := e; content := print e |})
          (filter (λ e, e ∈ keys) ["id"; "name"; "identifier"]) ++ rest
    ∧ Forall (λ it, element it ≠ "id" ∧ element it ≠ "name"
                    ∧ element it ≠ "identifier") rest.
Proof.
  destruct (createOrder_module_head keys) as (rest & Horder & Hrest).
  exists (map (λ e, {| element := e; content := print e |}) rest).
  unfold printedElements. rewrite Horder, map_app. split; [done|].
  apply Forall_forall. intros it Hit%list_elem_of_In.
  apply in_map_iff in Hit as (e & <- & He%list_elem_of_In).
  rewrite Forall_forall in Hrest. by apply Hrest.
Qed.

Lemma filterItems_app_plain (module : ModuleNode) (heads rest : list Printed) :
  Forall (λ it, element it ≠ "id" ∧ element it ≠ "name"
                ∧ element it ≠ "identifier") rest →
  ∀ st, filterItems module st (heads ++ rest) =
        filterItems module st heads ++ rest.
Proof.
  intros Hrest. induction heads as [|it heads IH]; intros st.
  - apply filterItems_plain. eapply Forall_impl; [exact Hrest|].
    intros it (_ & ? & ?). done.
  - cbn [app filterItems]. destruct (keep module st it) as [st' [|]].
    + by rewrite IH.
    + apply IH.
Qed.

End JoinerCases.

(** X6. The module joiner drops nothing but [name] and [identifier]
    elements: what it keeps is a sub-list of the elements, every other
    element is kept in place, and at most one kept [name] or [identifier]
    element has a non-empty content, so the module is named at most once
    on its line. *)
Theorem joinModule_drops_only_names (module : Joiner.ModuleNode)
    (items : list Joiner.Printed) :
  let kept :=
    Joiner.filterItems module
      {| Joiner.l_id := None; Joiner.l_hasName := false |} items in
  sublist kept items
  ∧ filter (λ it, Joiner.element it ≠ "name"
                  ∧ Joiner.element it ≠ "identifier") kept =
    filter (λ it, Joiner.element it ≠ "name"
                  ∧ Joiner.element it ≠ "identifier") items
  ∧ length (filter (λ it, (Joiner.element it = "name"
                           ∨ Joiner.element it = "identifier")
                          ∧ truthyStr (Joiner.content it) = true) kept) ≤ 1.
Proof.
  intros kept. split; [apply filterItems_sublist|].
  split; [apply filterItems_others|].
  apply (filterItems_named_once module items
           {| Joiner.l_id := None; Joiner.l_hasName := false |}).
Qed.

(** X7. For a module whose [id] differs from its [name], with the
    elements in the preferred order: when the [name] has a non-empty
    rendering the joiner drops exactly the [identifier] element, and when
    there is no rendered [name] it drops nothing, so the [identifier]
    stands in for the name. *)
Theorem joinModule_name_before_identifier (module : Joiner.ModuleNode)
    (keys : list string) (print : string → option string) :
  strictEq (Joiner.id module) (Joiner.name module) = false →
  let items := Joiner.printedElements keys print in
  ("name" ∈ keys → truthyStr (print "name") = true →
   Joiner.joinModule items module =
     Joiner.joinContents
       (filter (λ it, Joiner.element it ≠ "identifier") items))
  ∧ ("name" ∉ keys ∨ truthyStr (print "name") = false →
     Joiner.joinModule items module = Joiner.joinContents items).
Proof.
  intros Hneq items.
  destruct (printedElements_split keys print) as (rest & Hitems & Hrest).
  assert (Hkeep : filter (λ it, Joiner.element it ≠ "identifier") rest = rest).
  { apply filter_all. intros it Hit. rewrite Forall_forall in Hrest.
    by apply Hrest. }
  unfold Joiner.joinModule, items. rewrite Hitems.
  rewrite (filterItems_app_plain module _ rest Hrest).
  split.
  - intros Hname Hprint. f_equal. rewrite filter_app, Hkeep. f_equal.
    cbn [filter list_filter].
    destruct (decide ("id" ∈ keys)), (decide ("name" ∈ keys)),
             (decide ("identifier" ∈ keys)); try done;
      cbn [map Joiner.filterItems]; unfold Joiner.keep;
      cbn [Joiner.element Joiner.content Joiner.l_hasName Joiner.l_id
           String.eqb Ascii.eqb Bool.eqb andb];
      rewrite ?Hneq, ?Hprint;
      cbn [Joiner.element Joiner.content Joiner.l_hasName Joiner.l_id
           Joiner.filterItems];
      reflexivity.
  - intros Hnone. f_equal. f_equal.
    cbn [filter list_filter].
    destruct (decide ("id" ∈ keys)), (decide ("name" ∈ keys)),
             (decide ("identifier" ∈ keys));
      cbn [map Joiner.filterItems]; unfold Joiner.keep;
      cbn [Joiner.element Joiner.content Joiner.l_hasName Joiner.l_id
           String.eqb Ascii.eqb Bool.eqb andb];
      rewrite ?Hneq;
      cbn [Joiner.element Joiner.content Joiner.l_hasName Joiner.l_id
           Joiner.filterItems];
      try (destruct Hnone as [Hnone|Hnone]; [done|rewrite Hnone]);
      cbn [Joiner.element Joiner.content Joiner.l_hasName Joiner.l_id
           Joiner.filterItems];
      repeat match goal with
             | |- context [truthyStr ?c] => destruct (truthyStr c)
             end;
      reflexivity.
Qed.

Lemma joinModule_name_before_identifier_witness :
  let module := {| Joiner.id := PNum 3; Joiner.name := PStr "./a.js" |} in
  let print := λ e : string,
    if String.eqb e "id" then Some "[3]"
    else if String.eqb e "name" then Some "./a.js"
    else if String.eqb e "identifier" then Some "/src/a.js"
    else None in
  let unnamed := λ e : string,
    if String.eqb e "id" then Some "[3]"
    else if String.eqb e "identifier" then Some "/src/a.js"
    else None in
  strictEq (Joiner.id module) (Joiner.name module) = false
  ∧ "name" ∈ ["identifier"; "name"; "id"]
  ∧ truthyStr (print "name") = true
  ∧ Joiner.joinModule
      (Joiner.printedElements ["identifier"; "name"; "id"] print) module =
    "[3] ./a.js"
  ∧ Joiner.joinModule
      (Joiner.printedElements ["identifier"; "name"; "id"] unnamed) module =
    "[3] /src/a.js".
Proof.
  intros module print unnamed.
  assert (Hneq : strictEq (Joiner.id module) (Joiner.name module) = false)
    by reflexivity.
  assert (Hin : "name" ∈ ["identifier"; "name"; "id"]) by (right; left).
  assert (Hprint : truthyStr (print "name") = true) by reflexivity.
  assert (Hnone : "name" ∉ ["identifier"; "name"; "id"]
                  ∨ truthyStr (unnamed "name") = false) by (right; reflexivity).
  split; [exact Hneq|]. split; [exact Hin|]. split; [exact Hprint|]. split.
  - rewrite (proj1 (joinModule_name_before_identifier module
                      ["identifier"; "name"; "id"] print Hneq) Hin Hprint).
    reflexivity.
  - rewrite (proj2 (joinModule_name_before_identifier module
                      ["identifier"; "name"; "id"] unnamed Hneq) Hnone).
    reflexivity.
Defined.

(** ** Merging, further *)

Section MergeMore.

Lemma size_list_to_set_le (l : list string) :
  size (list_to_set l : gset string) ≤ length l
  ∧ (size (list_to_set l : gset string) = length l → NoDup l).
Proof.
  induction l as [|x l [IHle IHnd]]; [split; [done|constructor]|].
  cbn [list_to_set length].
  destruct (decide (x ∈ (list_to_set l : gset string))) as [Hin|Hout].
  - replace ({[x]} ∪ list_to_set l : gset string) with
      (list_to_set l : gset string) by set_solver.
    split; [lia|]. intros Heq. lia.
  - rewrite size_union by set_solver. rewrite size_singleton.
    split; [lia|]. intros Heq. constructor.
    + by rewrite elem_of_list_to_set in Hout.
    + apply IHnd. lia.
Qed.

End MergeMore.

(** X8. Merging loses items exactly when names collide: the mapping never
    has more entries than there are items, and it has as many entries as
    items iff the names of the items are pairwise distinct. *)
Theorem mergeToObject_size {Item : Type} (name : Item → string)
    (items : list Item) :
  size (Merge.mergeToObject name items) ≤ length items
  ∧ (size (Merge.mergeToObject name items) = length items ↔
     NoDup (name <$> items)).
Proof.
  assert (Hsize : size (Merge.mergeToObject name items) =
                  size (list_to_set (name <$> items) : gset string)).
  { rewrite <- mergeToObject_dom. symmetry. apply size_dom. }
  rewrite Hsize.
  destruct (size_list_to_set_le (name <$> items)) as [Hle Hnd].
  rewrite length_fmap in Hle, Hnd.
  split; [exact Hle|]. split; [exact Hnd|].
  intros Hnodup. rewrite size_list_to_set by done. apply length_fmap.
Qed.

(** ** What the extractors write *)

Section FootprintFacts.
Import Factory Footprint.
Context `{access : DataAccess}.

Lemma confined_ret {A : Type} (fields : list string) (a : A) :
  confined fields (mret a).
Proof. intros object object' w w' a' [= <- <- <-]. done. Qed.

Lemma confined_bind {A B : Type} (fields : list string) (m : M A)
    (k : A → M B) :
  confined fields m → (∀ a, confined fields (k a)) →
  confined fields (m ≫= k).
Proof.
  intros Hm Hk object object' w w' b Hrun.
  unfold mbind, M_bind in Hrun.
  destruct (m object w) as [[[a o1] w1]|] eqn:Hfirst; [|done].
  destruct (Hm _ _ _ _ _ Hfirst) as [Hsame1 Hdom1].
  destruct (Hk a _ _ _ _ _ Hrun) as [Hsame2 Hdom2].
  split; [|set_solver].
  intros key Hkey. by rewrite Hsame2, Hsame1.
Qed.

Lemma confined_assign (fields : list string) (key : string) (value : val) :
  key ∈ fields → confined fields (assign key value).
Proof.
  intros Hin object object' w w' a [= <- <-]. split.
  - intros k Hk. apply lookup_insert_ne. by intros ->.
  - rewrite dom_insert. set_solver.
Qed.

Lemma confined_field (fields : list string) (key : string) :
  confined fields (field key).
Proof. intros object object' w w' a [= <- <- <-]. done. Qed.

Lemma confined_liftC {A : Type} (fields : list string) (c : Completion A) :
  confined fields (liftC c).
Proof.
  intros object object' w w' a Hrun. unfold liftC in Hrun.
  destruct c; [|done]. by injection Hrun as <- <- <-.
Qed.

Lemma confined_create (fields : list string) type data context :
  confined fields (factoryCreate type data context).
Proof.
  intros object object' w w' a Hrun. unfold factoryCreate in Hrun.
  destruct (create type data context w) as [[v w1]|]; [|done].
  by injection Hrun as <- <- <-.
Qed.

Lemma confined_mapM {A B : Type} (fields : list string) (f : A → M B)
    (l : list A) :
  (∀ x, confined fields (f x)) → confined fields (mapM f l).
Proof.
  intros Hf. induction l as [|x l IH]; simpl.
  - apply confined_ret.
  - apply confined_bind; [apply Hf|]. intros y.
    apply confined_bind; [apply IH|]. intros k. apply confined_ret.
Qed.

Ltac confined_steps :=
  repeat first
    [ apply confined_ret
    | apply confined_field
    | apply confined_liftC
    | apply confined_create
    | apply confined_assign; apply (bool_decide_unpack _); reflexivity
    | apply confined_bind; [|intros ?]
    | match goal with
      | |- confined _ (match ?x with _ => _ end) => destruct x
      end ].

Lemma SIMPLE_EXTRACTORS_confined :
  Forall (λ group : string * list (string * Extractor),
            Forall (λ entry : string * Extractor,
                      ∀ options data context,
                        confined (extractorFields group.1)
                          (callExtractor entry.2 options data context))
                   group.2)
         SIMPLE_EXTRACTORS.
Proof.
  unfold SIMPLE_EXTRACTORS.
  repeat first [ apply List.Forall_nil | apply List.Forall_cons
               | progress cbn [fst snd] ];
    intros options data context;
    destruct data; cbn [callExtractor]; try apply confined_liftC.
  all: unfold compilation__, compilation_hash, compilation_version,
         compilation_timings, compilation_builtAt, compilation_publicPath,
         compilation_outputPath, compilation_assets, compilation_chunks,
         compilation_modules, compilation_entrypoints,
         compilation_chunkGroups, asset__, asset_performance, chunkGroup__,
         module__, module_orphanModules, module_moduleAssets, module_reasons,
         module_usedExports, module_providedExports,
         module_optimizationBailout, module_depth, module_nestedModules,
         module_source, moduleIssuer__, chunk_chunkModules,
         chunk_chunkRootModules;
       cbv zeta; confined_steps.
Qed.

Lemma extractChildren_confined data context :
  confined (extractorFields "compilation") (extractChildren data context).
Proof.
  destruct data; cbn; try apply confined_liftC.
  apply confined_bind.
  - apply confined_mapM. intros _. apply confined_create.
  - intros reports. apply confined_assign.
    apply (bool_decide_unpack _). reflexivity.
Qed.

Lemma tappedExtractors_confined (options : Options) :
  Forall (λ tap : string * ExtractTap,
            ∀ data context,
              confined (extractorFields tap.1) (tap.2 data context))
         (tappedExtractors options).
Proof.
  unfold tappedExtractors. apply Forall_app. split.
  - apply Forall_fmap, Forall_forall. intros [[hookFor option] fn] Hin.
    apply elem_of_enabled in Hin as [(subConfig & Hconf & Hsub) _].
    pose proof SIMPLE_EXTRACTORS_confined as Hall.
    rewrite Forall_forall in Hall. specialize (Hall _ Hconf).
    rewrite Forall_forall in Hall. specialize (Hall _ Hsub).
    intros data context. apply Hall.
  - destruct (truthy (optionValue options "children")); [|constructor].
    constructor; [|constructor]. intros data context.
    apply extractChildren_confined.
Qed.

Lemma callExtract_confined (hooks : Hooks) (name : string) (data : Item)
    (context : Ctx) :
  Forall (λ tap : string * ExtractTap,
            ∀ data context,
              confined (extractorFields tap.1) (tap.2 data context))
         (extract hooks) →
  confined (extractorFields name) (callExtract hooks name data context).
Proof.
  unfold callExtract. induction 1 as [|[k fn] taps Hfn _ IH]; simpl.
  - apply confined_ret.
  - destruct (String.eqb_spec k name) as [->|Hne]; [|exact IH].
    apply confined_bind; [apply Hfn|]. intros _. exact IH.
Qed.

End FootprintFacts.

(** X9. The extractors tapped by the plugin only add to the output
    object: run for a group on any output object, they leave every field
    that is not one of the fields of that group as it was, and they remove
    no field; for a name without extractors the object is returned
    unchanged. *)
Theorem extract_writes_only_group_fields `{access : Factory.DataAccess}
    (options : Options) (context : Factory.HookContext) (name : string)
    (data : Factory.Item) (ctx : Factory.Ctx) (object object' : Obj)
    (w w' : Factory.FactoryState) :
  Factory.callExtract
    (Factory.statsFactoryTap options context Factory.noHooks)
    name data ctx object w = Return (tt, object', w') →
  (∀ key, key ∉ Footprint.extractorFields name →
          object' !! key = object !! key)
  ∧ dom object ⊆ dom object'
  ∧ (Footprint.extractorFields name = [] → object' = object).
Proof.
  intros Hrun.
  pose proof (callExtract_confined
                (Factory.statsFactoryTap options context Factory.noHooks)
                name data ctx) as Hconfined.
  rewrite extract_statsFactoryTap in Hconfined.
  destruct (Hconfined (tappedExtractors_confined options) _ _ _ _ _ Hrun)
    as [Hsame Hdom].
  split; [exact Hsame|]. split; [exact Hdom|].
  intros Hnone. apply map_eq. intros key. apply Hsame.
  rewrite Hnone. apply not_elem_of_nil.
Qed.

(** ** Particular extractors *)

Section ExtractorFacts.
Import Factory Footprint.
Context `{access : DataAccess}.

(** The effect of creating reports, storing them and counting them. *)
Lemma create_count_run type data context (key counted : string) (n : nat)
    (object : Obj) (w : FactoryState) :
  (created ← factoryCreate type data context;
   assign key created;;
   stored ← field key;
   len ← liftC (lengthOf stored);
   assign counted (jsSub (num n) len)) object w =
  match create type data context w with
  | Return (created, w') =>
      match lengthOf created with
      | Return len =>
          Return (tt, <[counted := jsSub (num n) len]>
                        (<[key := created]> object), w')
      | ThrowTypeError => ThrowTypeError
      end
  | ThrowTypeError => ThrowTypeError
  end.
Proof.
  unfold mbind, M_bind, factoryCreate, assign, field, liftC.
  destruct (create type data context w) as [[created w']|]; [|done].
  rewrite lookup_insert_eq. change (default undefined (Some created)) with created.
  by destruct (lengthOf created).
Qed.

Lemma setAdd_foldl {A : Type} `{EqDecision A} (l : list A) : ∀ acc : list A,
  NoDup acc →
  NoDup (foldl setAdd acc l)
  ∧ ∀ x, x ∈ foldl setAdd acc l ↔ x ∈ acc ∨ x ∈ l.
Proof.
  induction l as [|y l IH]; intros acc Hacc.
  - split; [done|]. intros x. rewrite elem_of_nil. tauto.
  - cbn [foldl]. unfold setAdd at 2 4.
    case_bool_decide as Hin.
    + destruct (IH acc Hacc) as [Hnd Hmem]. split; [done|].
      intros x. rewrite Hmem, elem_of_cons. split; [tauto|].
      intros [?|[->|?]]; tauto.
    + destruct (IH (acc ++ [y])) as [Hnd Hmem].
      { apply NoDup_app. split; [done|]. split; [|apply NoDup_singleton].
        intros x Hx ->%list_elem_of_singleton. done. }
      split; [done|]. intros x.
      rewrite Hmem, elem_of_app, list_elem_of_singleton, elem_of_cons. tauto.
Qed.

Lemma setAdd_each_foldl {A B : Type} `{EqDecision A} (f : B → list A)
    (l : list B) : ∀ acc : list A,
  NoDup acc →
  NoDup (foldl (λ set b, foldl setAdd set (f b)) acc l)
  ∧ ∀ x, x ∈ foldl (λ set b, foldl setAdd set (f b)) acc l ↔
         x ∈ acc ∨ ∃ b, b ∈ l ∧ x ∈ f b.
Proof.
  induction l as [|b l IH]; intros acc Hacc.
  - split; [done|]. intros x. split; [by left|].
    intros [?|(b & Hb & _)]; [done|by apply elem_of_nil in Hb].
  - cbn [foldl]. destruct (setAdd_foldl (f b) acc Hacc) as [Hnd Hmem].
    destruct (IH _ Hnd) as [Hnd' Hmem']. split; [done|].
    intros x. rewrite Hmem', Hmem. split.
    + intros [[?|?]|(b' & Hb' & Hx)]; [by left|right|right].
      * exists b. split; [left|done].
      * exists b'. split; [by right|done].
    + intros [?|(b' & Hb' & Hx)]; [by left; left|].
      apply elem_of_cons in Hb' as [->|Hb']; [by left; right|].
      right. by exists b'.
Qed.

Lemma setAdd_truthy_foldl (l : list Chunk) : ∀ acc : list prim,
  NoDup acc →
  NoDup (foldl (λ names chunk,
                  if truthyPrim (chunkName chunk)
                  then setAdd names (chunkName chunk) else names) acc l)
  ∧ ∀ x, x ∈ foldl (λ names chunk,
                      if truthyPrim (chunkName chunk)
                      then setAdd names (chunkName chunk) else names) acc l ↔
         x ∈ acc ∨ (truthyPrim x = true
                    ∧ ∃ chunk, chunk ∈ l ∧ chunkName chunk = x).
Proof.
  induction l as [|c l IH]; intros acc Hacc.
  - split; [done|]. intros x. split; [by left|].
    intros [?|(_ & c & Hc & _)]; [done|by apply elem_of_nil in Hc].
  - cbn [foldl]. destruct (truthyPrim (chunkName c)) eqn:Ht.
    + destruct (setAdd_foldl [chunkName c] acc Hacc) as [Hnd Hmem].
      cbn [foldl] in Hnd, Hmem.
      destruct (IH _ Hnd) as [Hnd' Hmem']. split; [done|].
      intros x. rewrite Hmem', Hmem, list_elem_of_singleton. split.
      * intros [[?| ->]|(Hx & c' & Hc' & Hn)]; [by left|right|right].
        -- split; [done|]. exists c. split; [left|done].
        -- split; [done|]. exists c'. split; [by right|done].
      * intros [?|(Hx & c' & Hc' & Hn)]; [by left; left|].
        apply elem_of_cons in Hc' as [->|Hc']; [by left; right|].
        right. split; [done|]. by exists c'.
    + destruct (IH _ Hacc) as [Hnd' Hmem']. split; [done|].
      intros x. rewrite Hmem'. split.
      * intros [?|(Hx & c' & Hc' & Hn)]; [by left|right].
        split; [done|]. exists c'. split; [by right|done].
      * intros [?|(Hx & c' & Hc' & Hn)]; [by left|].
        apply elem_of_cons in Hc' as [->|Hc'].
        -- rewrite Hn in Ht. congruence.
        -- right. split; [done|]. by exists c'.
Qed.

End ExtractorFacts.

(** X11. The filtered count is requested minus produced: when
    [factory.create] returns an array of reports, the [assets] extractor
    stores it and sets [filteredAssets] to the number of assets minus the
    number of reports; when it returns an object without [length] the count
    is [NaN]; when it returns [undefined] the extractor throws. *)
Theorem compilation_assets_filtered_count `{access : Factory.DataAccess}
    (compilation : Factory.Compilation) (ctx : Factory.Ctx)
    (options : Options) (object : Obj) (w w' : Factory.FactoryState) :
  let array := map (λ '(name, source), Factory.IAsset name source)
                   (Factory.assets compilation) in
  let path := Factory.type ctx +:+ ".assets" in
  (∀ reports,
     Factory.create path (Factory.DArray array) ctx w =
       Return (VArr reports, w') →
     Factory.compilation_assets compilation ctx options object w =
       Return (tt,
               <["filteredAssets" :=
                   VPrim (PNum (Z.of_nat (length (Factory.assets compilation))
                                - Z.of_nat (length reports)))]>
                 (<["assets" := VArr reports]> object),
               w'))
  ∧ (∀ fields,
       fields !! "length" = None →
       Factory.create path (Factory.DArray array) ctx w =
         Return (VObj fields, w') →
       Factory.compilation_assets compilation ctx options object w =
         Return (tt,
                 <["filteredAssets" := VPrim PNaN]>
                   (<["assets" := VObj fields]> object),
                 w'))
  ∧ (Factory.create path (Factory.DArray array) ctx w =
       Return (undefined, w') →
     Factory.compilation_assets compilation ctx options object w =
       ThrowTypeError).
Proof.
  intros array path. unfold Factory.compilation_assets.
  fold array. fold path. cbv zeta. rewrite create_count_run.
  split; [|split].
  - intros reports ->. cbn [Factory.lengthOf].
    unfold Factory.jsSub, Factory.num. cbn [Factory.toNumber].
    unfold array. by rewrite length_map.
  - intros fields Hlen ->. cbn [Factory.lengthOf]. rewrite Hlen.
    reflexivity.
  - intros ->. reflexivity.
Qed.

(** X12. The [chunks] of an asset report are the ids, each once, of the
    chunks whose files include the asset, and its [chunkNames] are the
    non-empty names, each once, of those chunks; the extractor always
    returns and leaves the factory as it was. *)
Theorem asset_chunks_distinct `{access : Factory.DataAccess}
    (asset : string * Factory.Source) (ctx : Factory.Ctx)
    (options : Options) (object : Obj) (w : Factory.FactoryState) :
  (∀ ids, Factory.sortIds ids ≡ₚ ids) →
  ∃ (ids names : list prim) (object' : Obj),
    Factory.asset__ asset ctx options object w = Return (tt, object', w)
    ∧ object' !! "chunks" = Some (VArr (VPrim <$> ids))
    ∧ NoDup ids
    ∧ (∀ id, id ∈ ids ↔
             ∃ chunk, chunk ∈ Factory.chunks (Factory.compilation ctx)
                      ∧ asset.1 ∈ Factory.chunkFiles chunk
                      ∧ id ∈ Factory.chunkIds chunk)
    ∧ object' !! "chunkNames" = Some (VArr (VPrim <$> names))
    ∧ NoDup names
    ∧ (∀ n, n ∈ names ↔
            truthyPrim n = true
            ∧ ∃ chunk, chunk ∈ Factory.chunks (Factory.compilation ctx)
                       ∧ asset.1 ∈ Factory.chunkFiles chunk
                       ∧ Factory.chunkName chunk = n).
Proof.
  intros Hsort.
  set (holding := filter (λ chunk, asset.1 ∈ Factory.chunkFiles chunk)
                         (Factory.chunks (Factory.compilation ctx))).
  destruct (setAdd_each_foldl Factory.chunkIds holding [] (NoDup_nil_2))
    as [Hnd_ids Hmem_ids].
  destruct (setAdd_truthy_foldl holding [] (NoDup_nil_2))
    as [Hnd_names Hmem_names].
  exists (Factory.sortIds
            (foldl (λ ids chunk,
                      foldl Factory.setAdd ids (Factory.chunkIds chunk))
                   [] holding)),
         (Factory.sortIds
            (foldl (λ names chunk,
                      if truthyPrim (Factory.chunkName chunk)
                      then Factory.setAdd names (Factory.chunkName chunk)
                      else names)
                   [] holding)).
  eexists.
  split; [unfold Factory.asset__, mbind, Factory.M_bind, Factory.assign;
          reflexivity|].
  split; [by rewrite lookup_insert_ne, lookup_insert_ne, lookup_insert_eq|].
  split; [by rewrite Hsort|]. split.
  { intros id. rewrite Hsort. fold holding. rewrite Hmem_ids. split.
    - intros [?%elem_of_nil|(chunk & Hchunk & Hid)]; [done|].
      apply list_elem_of_filter in Hchunk as [Hfile Hchunk]. by exists chunk.
    - intros (chunk & Hchunk & Hfile & Hid). right. exists chunk.
      split; [|done]. by apply list_elem_of_filter. }
  split; [by rewrite lookup_insert_ne, lookup_insert_eq|].
  split; [by rewrite Hsort|].
  intros n. rewrite Hsort. fold holding. rewrite Hmem_names. split.
  - intros [?%elem_of_nil|(Ht & chunk & Hchunk & Hn)]; [done|].
    apply list_elem_of_filter in Hchunk as [Hfile Hchunk].
    split; [done|]. by exists chunk.
  - intros (Ht & chunk & Hchunk & Hfile & Hn). right. split; [done|].
    exists chunk. split; [|done]. by apply list_elem_of_filter.
Qed.

(** X13. The loop of the module extractor collects the chain of
    issuers: when the chain of issuers from [current] on is finite, the
    loop, given at least as many rounds as the chain is long, ends with
    the path it started from followed by exactly that chain, the nearest
    issuer first. *)
Theorem issuerLoop_collects_chain `{access : Factory.DataAccess}
    (compilation : Factory.Compilation)
    (current : Factory.BuildModule + Factory.Nullish)
    (chain path : list Factory.BuildModule) (fuel : nat) :
  Footprint.IssuerChain compilation current chain →
  length chain ≤ fuel →
  Factory.issuerLoop fuel compilation current path = path ++ chain.
Proof.
  intros Hchain. revert path fuel.
  induction Hchain as [n|module chain _ IH]; intros path fuel Hfuel.
  - rewrite app_nil_r. by destruct fuel.
  - destruct fuel as [|fuel]; [simpl in Hfuel; lia|].
    cbn [Factory.issuerLoop]. rewrite IH by (simpl in Hfuel; lia).
    by rewrite <- app_assoc.
Qed.

(** ** The taps of the plugin *)

Section TapFacts.
Import Factory Footprint.
Context `{access : DataAccess}.

Lemma tapExtract_foldl_others (options : Options)
    (l : list (string * string * Extractor)) : ∀ hooks : Hooks,
  getItemName
    (foldl (λ hooks '(hookFor, _, fn),
              tapExtract hookFor (callExtractor fn options) hooks) hooks l) =
    getItemName hooks
  ∧ merge
      (foldl (λ hooks '(hookFor, _, fn),
                tapExtract hookFor (callExtractor fn options) hooks) hooks l) =
    merge hooks.
Proof.
  induction l as [|[[hookFor option] fn] l IH]; intros hooks; [done|].
  cbn [foldl].
  destruct (IH (tapExtract hookFor (callExtractor fn options) hooks))
    as [Hname Hmerge].
  split; [exact Hname|exact Hmerge].
Qed.

Lemma statsFactoryTap_taps (options : Options) (context : HookContext)
    (hooks : Hooks) :
  extract (statsFactoryTap options context hooks) =
    extract hooks ++ tappedExtractors options
  ∧ getItemName (statsFactoryTap options context hooks) =
    getItemName hooks ++ ITEM_NAMES
  ∧ merge (statsFactoryTap options context hooks) = merge hooks ++ MERGER
  ∧ getItemFactory (statsFactoryTap options context hooks) =
    getItemFactory hooks ++ tappedFactories options context.
Proof.
  unfold statsFactoryTap, tappedExtractors, tappedFactories.
  rewrite iterateConfig_enabled.
  destruct (tapExtract_foldl options
              (Config.enabled SIMPLE_EXTRACTORS options) hooks)
    as [Hextract Hfactory].
  destruct (tapExtract_foldl_others options
              (Config.enabled SIMPLE_EXTRACTORS options) hooks)
    as [Hname Hmerge].
  set (tapped := foldl _ hooks (Config.enabled SIMPLE_EXTRACTORS options))
    in *.
  clearbody tapped.
  unfold ITEM_NAMES, MERGER. cbn [foldl].
  destruct (truthy (optionValue options "children")).
  - destruct (optionValue options "children") as [[| |[|]| | |]| | |];
      cbn [extract getItemName merge getItemFactory tapExtract
           tapGetItemName tapMerge tapGetItemFactory];
      rewrite Hextract, Hfactory, Hname, Hmerge, <- ?app_assoc,
        ?app_nil_r; done.
  - cbn [extract getItemName merge getItemFactory tapExtract
         tapGetItemName tapMerge tapGetItemFactory].
    rewrite Hextract, Hfactory, Hname, Hmerge, <- ?app_assoc, ?app_nil_r.
    done.
Qed.

End TapFacts.

(** X14. The callback only appends to the hooks of the stats factory:
    what was tapped before stays, in order and ahead of its own taps; the
    item names and the mergers are tapped whatever the options, the
    extractors and the child factories according to the options. *)
Theorem statsFactoryTap_appends `{access : Factory.DataAccess}
    (options : Options) (context : Factory.HookContext)
    (hooks : Factory.Hooks) :
  Factory.extract (Factory.statsFactoryTap options context hooks) =
    Factory.extract hooks ++ Factory.tappedExtractors options
  ∧ Factory.getItemName (Factory.statsFactoryTap options context hooks) =
    Factory.getItemName hooks ++ Factory.ITEM_NAMES
  ∧ Factory.merge (Factory.statsFactoryTap options context hooks) =
    Factory.merge hooks ++ Factory.MERGER
  ∧ Factory.getItemFactory (Factory.statsFactoryTap options context hooks) =
    Factory.getItemFactory hooks ++ Factory.tappedFactories options context.
Proof. apply statsFactoryTap_taps. Qed.

(** X15. The shapes of [options.children] other than an array: when it
    is falsy neither the extractor of the children nor a child factory is
    tapped; when it is [true] no child factory is tapped, so every child
    is reported by the factory itself; any other truthy value makes one
    factory, from that value, which every child gets whatever its
    index. *)
Theorem children_option_shapes `{access : Factory.DataAccess}
    (options : Options) (context : Factory.HookContext)
    (self : Factory.StatsFactory) (comp : Factory.Item) (idx : nat) :
  let hooks := Factory.statsFactoryTap options context Factory.noHooks in
  let key := "compilation.children[].compilation" in
  (truthy (optionValue options "children") = false →
   Factory.getItemFactory hooks = []
   ∧ Factory.extract hooks =
     (λ '(hookFor, _, fn), (hookFor, Factory.callExtractor fn options)) <$>
     Config.enabled Factory.SIMPLE_EXTRACTORS options)
  ∧ (optionValue options "children" = VPrim (PBool true) →
     Factory.getItemFactory hooks = []
     ∧ Factory.itemFactory self hooks key comp idx = self)
  ∧ (truthy (optionValue options "children") = true →
     isArray (optionValue options "children") = false →
     optionValue options "children" ≠ VPrim (PBool true) →
     Factory.callGetItemFactory hooks key comp idx =
       Some (Factory.createStatsFactory
               (Factory.createStatsOptions
                  (optionValue options "children") context))).
Proof.
  intros hooks key.
  destruct (statsFactoryTap_taps options context Factory.noHooks)
    as (Hextract & _ & _ & Hfactory).
  cbn [Factory.extract Factory.getItemFactory Factory.noHooks app]
    in Hextract, Hfactory.
  fold hooks in Hextract, Hfactory.
  unfold Factory.tappedExtractors in Hextract.
  unfold Factory.tappedFactories in Hfactory.
  split; [|split].
  - intros Hfalsy. rewrite Hfalsy in Hextract, Hfactory.
    split; [exact Hfactory|]. by rewrite Hextract, app_nil_r.
  - intros Htrue. rewrite Htrue in Hfactory. cbn in Hfactory.
    split; [exact Hfactory|].
    unfold Factory.itemFactory, Factory.callGetItemFactory.
    by rewrite Hfactory.
  - intros Htruthy Harray Hnot.
    unfold Factory.callGetItemFactory. rewrite Hfactory, Htruthy.
    destruct (optionValue options "children") as [[| |[|]| | |]| | |];
      try done; cbn [foldr]; unfold key; by rewrite String.eqb_refl.
Qed.

(** ** The assets table *)

Section AssetRowFacts.
Import Joiner AssetRow Table TableLayout.

Lemma elementsMap_lookup (elements : list Printed) (key : string) :
  ∀ acc : gmap string (option string),
    foldl (λ obj e, <[element e := content e]> obj) acc elements !! key =
    match last (filter (λ e, element e = key) elements) with
    | Some e => Some (content e)
    | None => acc !! key
    end.
Proof.
  induction elements as [|e elements IH]; intros acc; [done|].
  cbn [foldl]. rewrite IH.
  destruct (decide (element e = key)) as [Heq|Hne].
  - rewrite filter_cons_True by done.
    destruct (filter (λ e0, element e0 = key) elements) as [|x xs] eqn:Hf.
    + simpl. rewrite <- Heq. apply lookup_insert_eq.
    + rewrite last_cons_cons.
      destruct (last (x :: xs)) eqn:Hl; [done|].
      by apply last_None in Hl.
  - rewrite filter_cons_False by done.
    destruct (last (filter (λ e0, element e0 = key) elements)); [done|].
    by apply lookup_insert_ne.
Qed.

Lemma printElements_asset_cells (elements : list Printed) :
  printElements_asset elements =
    map (λ key,
           orEmpty (last (filter (λ e, element e = key) elements)
                    ≫= content))
        ["name"; "size"; "chunks"; "emitted"; "isOverSizeLimit";
         "chunkNames"].
Proof.
  unfold printElements_asset. cbn [map].
  rewrite !elementsMap_lookup, !lookup_empty.
  repeat f_equal;
    match goal with
    | |- context [last ?l] => by destruct (last l)
    end.
Qed.

End AssetRowFacts.

(** X16. A row of the assets table has six cells, in the order name,
    size, chunks, emitted, isOverSizeLimit, chunkNames; each cell is the
    content of the last element of that name, or empty when there is none
    or its content is undefined or empty. For one asset or more the table
    is printed with the header as first row, and each of its columns
    starts at the same offset in the header and in every row. *)
Theorem assets_table_rows (bold : string → string)
    (one : list Joiner.Printed) (others : list (list Joiner.Printed)) :
  let rows := AssetRow.printElements_asset <$> one :: others in
  let header := AssetRow.assetsHeader bold in
  (∀ elements,
     AssetRow.printElements_asset elements =
       map (λ key,
              AssetRow.orEmpty
                (last (filter (λ e, Joiner.element e = key) elements)
                 ≫= Joiner.content))
           ["name"; "size"; "chunks"; "emitted"; "isOverSizeLimit";
            "chunkNames"])
  ∧ (∃ text,
       Table.printItems_assets bold rows = Return (Some text)
       ∧ Table.table (header :: rows) (Table.chars "rrrlll") None =
         Return text)
  ∧ ∀ row c,
      row ∈ header :: rows → c < 6 →
      length row = 6
      ∧ String.length
          (foldl (Table.lineStep row (Table.chars "rrrlll") None
                    (Table.measure (header :: rows) 6) 6) "" (seq 0 c)) =
        TableLayout.columnStart (header :: rows) "  " 6 c.
Proof.
  intros rows header.
  split; [apply printElements_asset_cells|]. split.
  - assert (Htable : ∃ text,
              Table.table (header :: rows) (Table.chars "rrrlll") None =
              Return text).
    { unfold header, AssetRow.assetsHeader. cbn [map].
      rewrite table_lines. by eexists. }
    destruct Htable as [text Htable]. exists text. split; [|exact Htable].
    unfold Table.printItems_assets, rows.
    cbn [fmap list_fmap length Nat.eqb app].
    change (map (λ h, if truthyStr (Some h) then bold h else h)
                ["Asset"; "Size"; "Chunks"; ""; ""; "Chunk Names"])
      with header.
    change (AssetRow.printElements_asset one ::
            (AssetRow.printElements_asset <$> others)) with rows.
    by rewrite Htable.
  - intros row c Hrow Hc. split.
    + apply elem_of_cons in Hrow as [->|Hrow]; [reflexivity|].
      unfold rows in Hrow. apply list_elem_of_fmap in Hrow as (e & -> & _).
      reflexivity.
    + apply (columns_start_alike header rows (Table.chars "rrrlll") None c
               row); [exact Hc| |exact Hrow].
      intros j Hj.
      do 6 (destruct j as [|j]; [reflexivity|]). simpl in Hc. lia.
Qed.

Lemma assets_table_rows_witness :
  let bold := λ s : string, s in
  let asset :=
    [ {| Joiner.element := "size"; Joiner.content := Some "120 bytes" |};
      {| Joiner.element := "name"; Joiner.content := Some "main.js" |};
      {| Joiner.element := "emitted"; Joiner.content := None |} ] in
  AssetRow.printElements_asset asset = ["main.js"; "120 bytes"; ""; ""; ""; ""]
  ∧ String.length
      (foldl (Table.lineStep (AssetRow.assetsHeader bold)
                (Table.chars "rrrlll") None
                (Table.measure
                   [AssetRow.assetsHeader bold;
                    AssetRow.printElements_asset asset] 6) 6) "" (seq 0 2)) =
    String.length
      (foldl (Table.lineStep (AssetRow.printElements_asset asset)
                (Table.chars "rrrlll") None
                (Table.measure
                   [AssetRow.assetsHeader bold;
                    AssetRow.printElements_asset asset] 6) 6) "" (seq 0 2)).
Proof.
  intros bold asset.
  destruct (assets_table_rows bold asset []) as (Hcells & _ & Haligned).
  split; [rewrite Hcells; reflexivity|].
  assert (Hc : 2 < 6) by lia.
  destruct (Haligned (AssetRow.assetsHeader bold) 2) as [_ Hheader];
    [left|exact Hc|].
  destruct (Haligned (AssetRow.printElements_asset asset) 2) as [_ Hrow];
    [right; left|exact Hc|].
  etrans; [exact Hheader|]. symmetry. exact Hrow.
Defined.

(** ** Enabled extractors, further *)

Section ConfigMore.
Import Config.
Context {H : Type}.

Lemma enabled_sublist (config : list (string * list (string * H)))
    (options options' : Options) :
  (∀ key, truthy (optionValue options key) = true →
          truthy (optionValue options' key) = true) →
  sublist (enabled config options) (enabled config options').
Proof.
  intros Hmore. unfold enabled.
  induction config as [|[hookFor subConfig] config IH]; [done|].
  cbn [mbind list_bind]. apply sublist_app; [|exact IH].
  clear IH. induction subConfig as [|[option handler] subConfig IH]; [done|].
  cbn [mbind list_bind]. apply sublist_app; [|exact IH].
  destruct (decide (option = "_" ∨ truthy (optionValue options option) = true))
    as [Hon|Hoff].
  - rewrite decide_True; [done|]. destruct Hon; auto.
  - apply sublist_nil_l.
Qed.

End ConfigMore.

(** X17. Enabling is monotone in the options: when every option that is
    truthy in one Options object is truthy in another, the calls
    [iterateConfig] makes for the first are, in order, among the calls it
    makes for the second. *)
Theorem iterateConfig_monotone {H : Type}
    (config : list (string * list (string * H)))
    (options options' : Options) :
  (∀ key, truthy (optionValue options key) = true →
          truthy (optionValue options' key) = true) →
  sublist
    (Config.iterateConfig config options
       (λ hookFor handler calls, calls ++ [(hookFor, handler)]) [])
    (Config.iterateConfig config options'
       (λ hookFor handler calls, calls ++ [(hookFor, handler)]) []).
Proof.
  intros Hmore. rewrite !iterateConfig_enabled.
  assert (Htrace : ∀ (l : list (string * string * H)) acc,
    foldl (λ s '(hookFor, _, handler), s ++ [(hookFor, handler)]) acc l =
    acc ++ ((λ '(hookFor, _, handler), (hookFor, handler)) <$> l)).
  { induction l as [|[[hf o] h] l IH]; intros acc.
    - by rewrite app_nil_r.
    - cbn [foldl fmap list_fmap]. rewrite IH, <- app_assoc. done. }
  rewrite !Htrace. cbn [app]. apply fmap_sublist.
  by apply enabled_sublist.
Qed.

Lemma iterateConfig_monotone_witness :
  let config : list (string * list (string * nat)) :=
    [("compilation", [("_", 0); ("hash", 1); ("assets", 2)])] in
  let few : Options := <["hash" := VPrim (PBool true)]> ∅ in
  let more : Options :=
    <["hash" := VPrim (PStr "yes")]> (<["assets" := VPrim (PBool true)]> ∅) in
  sublist
    (Config.iterateConfig config few
       (λ hookFor handler calls, calls ++ [(hookFor, handler)]) [])
    (Config.iterateConfig config more
       (λ hookFor handler calls, calls ++ [(hookFor, handler)]) []).
Proof.
  intros config few more.
  apply (iterateConfig_monotone config few more).
  intros key. unfold few, more, optionValue.
  destruct (decide (key = "hash")) as [->|Hne].
  - reflexivity.
  - rewrite lookup_insert_ne, lookup_empty by done. discriminate.
Defined.

(** ** The chunk group extractor *)

Section ChunkGroupFacts.
Import Factory Footprint.
Context `{access : DataAccess}.

Lemma insert_foldl_lookup {A : Type} (f : list ChunkGroup → A)
    (l : list (string * list ChunkGroup)) (key : string) :
  ∀ acc : gmap string A,
    foldl (λ obj '(k, groups), <[k := f groups]> obj) acc l !! key =
    match last (filter (λ entry, entry.1 = key) l) with
    | Some entry => Some (f entry.2)
    | None => acc !! key
    end.
Proof.
  induction l as [|[k groups] l IH]; intros acc; [done|].
  cbn [foldl]. rewrite IH.
  destruct (decide (k = key)) as [Heq|Hne].
  - rewrite filter_cons_True by done.
    destruct (filter (λ entry, entry.1 = key) l) as [|x xs] eqn:Hf.
    + simpl. rewrite <- Heq. apply lookup_insert_eq.
    + rewrite last_cons_cons.
      destruct (last (x :: xs)) eqn:Hl; [done|].
      by apply last_None in Hl.
  - rewrite filter_cons_False by done.
    destruct (last (filter (λ entry, entry.1 = key) l)); [done|].
    by apply lookup_insert_ne.
Qed.

Lemma last_filter_elem {A : Type} (P : A → Prop) `{∀ x, Decision (P x)}
    (l : list A) (x : A) :
  last (filter P l) = Some x → x ∈ l ∧ P x.
Proof.
  intros Hlast. apply last_Some_elem_of in Hlast.
  apply list_elem_of_filter in Hlast. tauto.
Qed.

Lemma last_filter_is_Some {A : Type} (P : A → Prop) `{∀ x, Decision (P x)}
    (l : list A) (x : A) :
  x ∈ l → P x → is_Some (last (filter P l)).
Proof.
  intros Hin HP. destruct (last (filter P l)) eqn:Hlast; [done|].
  apply last_None in Hlast.
  assert (Hx : x ∈ filter P l) by (by apply list_elem_of_filter).
  rewrite Hlast in Hx. by apply elem_of_nil in Hx.
Qed.

Lemma insert_foldl_keys {A : Type} (f : list ChunkGroup → A)
    (l : list (string * list ChunkGroup)) (key : string) :
  is_Some (foldl (λ obj '(k, groups), <[k := f groups]> obj)
                 (∅ : gmap string A) l !! key) ↔ key ∈ l.*1.
Proof.
  rewrite insert_foldl_lookup. split.
  - destruct (last (filter (λ entry, entry.1 = key) l))
      as [[k groups]|] eqn:Hlast.
    + intros _. apply last_filter_elem in Hlast as [Hin Hk].
      apply list_elem_of_fmap. by exists (k, groups).
    + rewrite lookup_empty. by intros [? ?].
  - intros Hin. apply list_elem_of_fmap in Hin as ([k groups] & -> & Hin).
    destruct (last_filter_is_Some (λ entry, entry.1 = (k, groups).1)
                l (k, groups) Hin eq_refl) as [entry ->].
    done.
Qed.

(** The files of the chunks of some groups, each once. *)
Lemma childFiles_foldl (groups : list ChunkGroup) : ∀ acc : list string,
  NoDup acc →
  NoDup (foldl (λ set group,
                  foldl (λ set chunk, foldl setAdd set (chunkFiles chunk))
                        set (groupChunks group)) acc groups)
  ∧ ∀ file,
      file ∈ foldl (λ set group,
                      foldl (λ set chunk, foldl setAdd set (chunkFiles chunk))
                            set (groupChunks group)) acc groups ↔
      file ∈ acc ∨ ∃ group chunk,
                     group ∈ groups ∧ chunk ∈ groupChunks group
                     ∧ file ∈ chunkFiles chunk.
Proof.
  induction groups as [|g groups IH]; intros acc Hacc.
  - split; [done|]. intros file. split; [by left|].
    intros [?|(g & c & Hg & _)]; [done|by apply elem_of_nil in Hg].
  - cbn [foldl].
    destruct (setAdd_each_foldl chunkFiles (groupChunks g) acc Hacc)
      as [Hnd Hmem].
    destruct (IH _ Hnd) as [Hnd' Hmem']. split; [done|].
    intros file. rewrite Hmem', Hmem. split.
    + intros [[?|(c & Hc & Hf)]|(g' & c & Hg' & Hc & Hf)].
      * by left.
      * right. exists g, c. split; [left|done].
      * right. exists g', c. split; [by right|done].
    + intros [?|(g' & c & Hg' & Hc & Hf)]; [by left; left|].
      apply elem_of_cons in Hg' as [->|Hg'].
      * left. right. by exists c.
      * right. by exists g', c.
Qed.

End ChunkGroupFacts.

(** X18. The chunk group extractor always returns and leaves the
    factory as it was. The fields [children] and [childAssets] it sets
    have one entry per kind of child order; under each kind [childAssets]
    lists the files of the chunks of the child groups of that kind, each
    file once. *)
Theorem chunkGroup_childAssets_distinct `{access : Factory.DataAccess}
    (data : string * Factory.ChunkGroup) (ctx : Factory.Ctx)
    (options : Options) (object : Obj) (w : Factory.FactoryState) :
  let orders :=
    Factory.getChildrenByOrders data.2 (Factory.compilation ctx) in
  ∃ (children childAssets : gmap string val) (object' : Obj),
    Factory.chunkGroup__ data ctx options object w = Return (tt, object', w)
    ∧ object' !! "name" = Some (VPrim (PStr data.1))
    ∧ object' !! "children" = Some (VObj children)
    ∧ object' !! "childAssets" = Some (VObj childAssets)
    ∧ (∀ key, is_Some (children !! key) ↔ key ∈ orders.*1)
    ∧ (∀ key, is_Some (childAssets !! key) ↔ key ∈ orders.*1)
    ∧ ∀ key value,
        childAssets !! key = Some value →
        ∃ groups files,
          (key, groups) ∈ orders
          ∧ value = VArr (Factory.str <$> files)
          ∧ NoDup files
          ∧ ∀ file, file ∈ files ↔
                    ∃ group chunk,
                      group ∈ groups
                      ∧ chunk ∈ Factory.groupChunks group
                      ∧ file ∈ Factory.chunkFiles chunk.
Proof.
  intros orders. eexists _, _, _.
  split.
  { unfold Factory.chunkGroup__, mbind, Factory.M_bind, Factory.assign.
    cbv zeta. fold orders. reflexivity. }
  split; [by repeat (rewrite lookup_insert_ne by done);
             rewrite lookup_insert_eq|].
  split; [by repeat (rewrite lookup_insert_ne by done);
             rewrite lookup_insert_eq|].
  split; [by rewrite lookup_insert_eq|].
  split; [|split].
  - intros key. apply insert_foldl_keys.
  - intros key. apply insert_foldl_keys.
  - intros key value. rewrite insert_foldl_lookup.
    destruct (last (filter (λ entry, entry.1 = key) orders))
      as [[k groups]|] eqn:Hlast; [|by rewrite lookup_empty].
    intros [= <-]. apply last_filter_elem in Hlast as [Hin Hk].
    simpl in Hk. subst k.
    destruct (childFiles_foldl groups [] (NoDup_nil_2)) as [Hnd Hmem].
    eexists groups, _. split; [exact Hin|]. split; [reflexivity|].
    split; [exact Hnd|].
    intros file. rewrite Hmem. split.
    + intros [?%elem_of_nil|?]; done.
    + by right.
Qed.

(** ** The further theorems at concrete inputs *)

Section ExampleRunsMore.
#[local] Existing Instance exampleCarriers.
#[local] Existing Instance exampleAccess.
Import Factory Footprint.

Lemma extract_writes_only_group_fields_witness :
  ∃ object' w',
    callExtract (statsFactoryTap exampleOptions exampleHookContext noHooks)
      "asset" exampleAsset exampleContext
      (<["custom" := VPrim (PStr "kept")]> ∅) exampleState =
      Return (tt, object', w')
    ∧ object' !! "custom" = Some (VPrim (PStr "kept"))
    ∧ "custom" ∈ dom object'.
Proof.
  destruct (callExtract
              (statsFactoryTap exampleOptions exampleHookContext noHooks)
              "asset" exampleAsset exampleContext
              (<["custom" := VPrim (PStr "kept")]> ∅) exampleState)
    as [[[[] object'] w']|] eqn:Hrun; [|by vm_compute in Hrun].
  exists object', w'. split; [reflexivity|].
  destruct (extract_writes_only_group_fields (access := exampleAccess)
              exampleOptions exampleHookContext "asset" exampleAsset
              exampleContext _ _ _ _ Hrun) as (Hsame & Hdom & _).
  split.
  - rewrite Hsame; [apply lookup_insert_eq|].
    apply (bool_decide_unpack _). reflexivity.
  - apply Hdom. rewrite dom_insert. set_solver.
Defined.

Lemma issuerLoop_collects_chain_witness :
  @Footprint.IssuerChain exampleCarriers exampleIssuers 0 (inl 2) [2; 1; 0]
  ∧ @Factory.issuerLoop exampleCarriers exampleIssuers 5 0 (inl 2) [] =
    [2; 1; 0].
Proof.
  assert (Hchain : @Footprint.IssuerChain exampleCarriers exampleIssuers 0
                     (inl 2) [2; 1; 0]).
  { do 3 (apply (@Footprint.chain_step exampleCarriers exampleIssuers 0)).
    apply (@Footprint.chain_end exampleCarriers exampleIssuers 0
             Factory.JsNull). }
  split; [exact Hchain|].
  apply (issuerLoop_collects_chain (access := exampleIssuers) 0 (inl 2)
           [2; 1; 0] [] 5 Hchain).
  simpl. lia.
Defined.

Lemma compilation_assets_filtered_count_witness :
  create "compilation.assets"
         (DArray (map (λ '(name, source), IAsset name source) (assets 0)))
         exampleContext exampleState = Return (VArr [VObj ∅], 1)
  ∧ compilation_assets 0 exampleContext exampleOptions ∅ exampleState =
    Return (tt,
            <["filteredAssets" := VPrim (PNum 0)]>
              (<["assets" := VArr [VObj ∅]]> ∅),
            1).
Proof.
  assert (Hcreate :
    create "compilation.assets"
           (DArray (map (λ '(name, source), IAsset name source) (assets 0)))
           exampleContext exampleState = Return (VArr [VObj ∅], 1))
    by reflexivity.
  split; [exact Hcreate|].
  exact (proj1 (compilation_assets_filtered_count (access := exampleAccess)
                  (0 : @Compilation exampleCarriers) exampleContext
                  exampleOptions ∅ exampleState
                  (1 : @FactoryState exampleCarriers))
               [VObj ∅] Hcreate).
Defined.

Lemma asset_chunks_distinct_witness :
  (∀ ids, sortIds ids ≡ₚ ids)
  ∧ ∃ ids names object',
      asset__ ("main.js", 120) exampleContext exampleOptions ∅ exampleState =
        Return (tt, object', exampleState)
      ∧ object' !! "chunks" = Some (VArr (VPrim <$> ids))
      ∧ NoDup ids
      ∧ object' !! "chunkNames" = Some (VArr (VPrim <$> names))
      ∧ NoDup names.
Proof.
  assert (Hsort : ∀ ids, sortIds ids ≡ₚ ids) by (intros ids; reflexivity).
  split; [exact Hsort|].
  destruct (asset_chunks_distinct (access := exampleAccess)
              (("main.js", 120) : string * @Source exampleCarriers)
              exampleContext exampleOptions ∅ exampleState Hsort)
    as (ids & names & object' & Hrun & Hchunks & Hnd & _ & Hnames & Hnd' & _).
  by exists ids, names, object'.
Defined.

Lemma children_option_shapes_witness :
  truthy (optionValue ∅ "children") = false
  ∧ getItemFactory (statsFactoryTap ∅ exampleHookContext noHooks) = []
  ∧ optionValue exampleAllChildren "children" = VPrim (PBool true)
  ∧ itemFactory (VPrim (PStr "parent"))
      (statsFactoryTap exampleAllChildren exampleHookContext noHooks)
      "compilation.children[].compilation" exampleRoot 1 =
    VPrim (PStr "parent")
  ∧ callGetItemFactory
      (statsFactoryTap exampleNested exampleHookContext noHooks)
      "compilation.children[].compilation" exampleRoot 7 =
    Some (VObj (<["hash" := VPrim (PBool true)]> ∅)).
Proof.
  assert (Hfalsy : truthy (optionValue ∅ "children") = false) by reflexivity.
  assert (Htrue : optionValue exampleAllChildren "children" =
                  VPrim (PBool true)) by reflexivity.
  assert (Htruthy : truthy (optionValue exampleNested "children") = true)
    by reflexivity.
  assert (Harray : isArray (optionValue exampleNested "children") = false)
    by reflexivity.
  assert (Hnot : optionValue exampleNested "children" ≠ VPrim (PBool true))
    by (by vm_compute).
  destruct (children_option_shapes (access := exampleAccess) ∅
              exampleHookContext (VPrim (PStr "parent")) exampleRoot 0)
    as (Hnone & _ & _).
  destruct (children_option_shapes (access := exampleAccess)
              exampleAllChildren exampleHookContext (VPrim (PStr "parent"))
              exampleRoot 1) as (_ & Hall & _).
  destruct (children_option_shapes (access := exampleAccess) exampleNested
              exampleHookContext (VPrim (PStr "parent")) exampleRoot 7)
    as (_ & _ & Hshared).
  split; [exact Hfalsy|]. split; [exact (proj1 (Hnone Hfalsy))|].
  split; [exact Htrue|]. split; [exact (proj2 (Hall Htrue))|].
  exact (Hshared Htruthy Harray Hnot).
Defined.

End ExampleRunsMore.
